(** * The pipeline driver of RandomForest_GenreClassifier ([main.py])

    [main.py] holds one function, [go]: it publishes two settings of the
    [main] section as process environment variables, works out which of the
    six pipeline steps to execute, and calls [mlflow.run] once per chosen
    step, in a fixed order, each time with a literal dictionary of
    parameters.  For the [random_forest] step it first dumps the
    [random_forest_pipeline] section to a YAML file.

    The embedding is shallow.  A configuration is a tree of values, a Python
    exception is an error result, and the effects of [go] (environment,
    files, runs) are threaded through a small state-and-exception monad that
    also records what happened as a trace of events.  What the libraries do
    ([mlflow.run], [OmegaConf.to_yaml], [os.path.abspath], failing file
    operations) is taken from a record of host functions, so that every
    theorem holds whatever they do. *)

From stdpp Require Import base option list gmap strings pretty.
From Stdlib Require Import Ascii String.

Open Scope string_scope.
Open Scope list_scope.
Set Warnings "-register-all".

(** ** Configuration values *)

(** What a node of the resolved [DictConfig] can hold.  A float is never
    computed with here, only handed on, so it is kept as mantissa and binary
    exponent. *)
Inductive Value : Type :=
| VNone
| VBool (b : bool)
| VInt (z : Z)
| VFloat (mantissa exponent : Z)
| VStr (s : string)
| VList (items : list Value)
| VDict (fields : list (string * Value)).

(** The exceptions that can leave [go]. *)
Inductive Exn : Type :=
| ConfigKeyError (key : string)
| TypeError
| ValueError
| OSError (errno : Z)
| ExecutionException (message : string).

Inductive Result (A : Type) : Type :=
| Ok (a : A)
| Err (e : Exn).
Arguments Ok {A} a.
Arguments Err {A} e.

(** First binding of a key in the fields of a mapping. *)
Fixpoint assoc {A} (k : string) (l : list (string * A)) : option A :=
  match l with
  | [] => None
  | (k', v) :: l' => if String.eqb k k' then Some v else assoc k l'
  end.

(** [cfg[key]]: a missing key of the (struct-mode) configuration raises, and
    so does subscripting anything but a mapping with a string. *)
Definition getitem (cfg : Value) (key : string) : Result Value :=
  match cfg with
  | VDict fields =>
      match assoc key fields with
      | Some v => Ok v
      | None => Err (ConfigKeyError key)
      end
  | _ => Err TypeError
  end.

(** [cfg[section][key]] *)
Definition getitem2 (cfg : Value) (section key : string) : Result Value :=
  match getitem cfg section with
  | Ok sec => getitem sec key
  | Err e => Err e
  end.

(** [isinstance(v, str)] *)
Definition isinstance_str (v : Value) : bool :=
  match v with VStr _ => true | _ => false end.

(** [s.split(sep)] for a one-character separator: never empty, and the empty
    string gives one empty piece. *)
Fixpoint split (sep : ascii) (s : string) : list string :=
  match s with
  | EmptyString => [EmptyString]
  | String c s' =>
      if Ascii.eqb c sep then EmptyString :: split sep s'
      else match split sep s' with
           | [] => [String c EmptyString]
           | piece :: pieces => String c piece :: pieces
           end
  end.

(** [list(v)] for a value that is not a string: the items of a sequence, the
    keys of a mapping, [TypeError] for what cannot be iterated. *)
Definition py_list (v : Value) : Result (list Value) :=
  match v with
  | VList items => Ok items
  | VDict fields => Ok (map (λ kv, VStr (fst kv)) fields)
  | VStr s => Ok (map (λ c, VStr (String c EmptyString)) (list_ascii_of_string s))
  | VNone | VBool _ | VInt _ | VFloat _ _ => Err TypeError
  end.

(** [name == v] for a string literal [name] *)
Definition str_eq (name : string) (v : Value) : bool :=
  match v with VStr s => String.eqb name s | _ => false end.

(** [name in steps] *)
Definition py_in (name : string) (steps : list Value) : bool :=
  existsb (str_eq name) steps.

(** [posixpath.join] of two components *)
Definition is_slash (c : ascii) : bool := Ascii.eqb c "/"%char.

Definition starts_with_slash (s : string) : bool :=
  match s with String c _ => is_slash c | EmptyString => false end.

Fixpoint ends_with_slash (s : string) : bool :=
  match s with
  | EmptyString => false
  | String c EmptyString => is_slash c
  | String _ s' => ends_with_slash s'
  end.

Definition os_path_join (a b : string) : string :=
  if starts_with_slash b then b
  else if (match a with EmptyString => true | _ => ends_with_slash a end)
       then a +:+ b
       else a +:+ "/" +:+ b.

(** How an f-string renders a value ([format(v, "")], that is [str(v)]).
    Floats and containers are rendered by the host. *)
Definition py_format (str_other : Value → string) (v : Value) : string :=
  match v with
  | VStr s => s
  | VNone => "None"
  | VBool true => "True"
  | VBool false => "False"
  | VInt z => pretty z
  | _ => str_other v
  end.

(** ** Errors as results *)

#[global] Instance Result_ret : MRet Result := λ A a, Ok a.
#[global] Instance Result_bind : MBind Result := λ A B f r,
  match r with
  | Ok a => f a
  | Err e => Err e
  end.

(** ** The process: environment, files, runs *)

(** What the driver can change and a run can see: the environment
    variables, the files on disk, and the one file object the driver may
    hold open, with the text written to it and not yet flushed. *)
Record Sys : Type := mkSys {
  environ : gmap string string;
  disk : gmap string string;
  handle : option (string * string)
}.

(** A call of [mlflow.run(uri, entry_point, parameters=...)]. *)
Record Call : Type := mkCall {
  uri : string;
  entry_point : string;
  parameters : list (string * Value)
}.

Inductive IoOp : Type :=
| OpOpen (path : string)
| OpWrite (path data : string)
| OpClose (path : string).

(** What happened, in order.  A file operation and a run carry the
    exception they raised, if any; a run also carries the process as it was
    when the run was started. *)
Inductive Event : Type :=
| EvSetEnv (name value : string)
| EvOpen (path : string) (raised : option Exn)
| EvWrite (path data : string) (raised : option Exn)
| EvClose (path : string) (raised : option Exn)
| EvRun (c : Call) (seen : Sys) (raised : option Exn).

(** The libraries and the machine the driver runs on. *)
Record Host : Type := mkHost {
  (** [hydra.utils.get_original_cwd()] *)
  get_original_cwd : string;
  (** [os.path.abspath] (it reads the working directory) *)
  os_path_abspath : string → string;
  (** [OmegaConf.to_yaml] *)
  to_yaml : Value → Result string;
  (** [str] of a float or a container *)
  str_other : Value → string;
  (** whether a file operation fails, and with which exception *)
  io_fault : IoOp → Sys → option Exn;
  (** [mlflow.run]: the exception it raises, if any, and the files it
      leaves on disk *)
  mlflow_run : Call → Sys → option Exn * gmap string string
}.

(** A computation reads and changes the process, returns or raises, and
    appends to the trace. *)
Definition M (A : Type) : Type := Sys → Result A * Sys * list Event.

#[global] Instance M_ret : MRet M := λ A a s, (Ok a, s, []).
#[global] Instance M_bind : MBind M := λ A B f m s,
  match m s with
  | (Ok a, s1, t1) => let '(r, s2, t2) := f a s1 in (r, s2, t1 ++ t2)
  | (Err e, s1, t1) => (Err e, s1, t1)
  end.

Definition lift {A} (r : Result A) : M A := λ s, (r, s, []).

(** [try: m finally: c]: [c] runs whatever [m] did, and an exception of [c]
    replaces the outcome of [m]. *)
Definition finally {A} (m : M A) (c : M unit) : M A := λ s,
  let '(r, s1, t1) := m s in
  match c s1 with
  | (Ok _, s2, t2) => (r, s2, t1 ++ t2)
  | (Err e, s2, t2) => (Err e, s2, t1 ++ t2)
  end.

Definition has_nul (s : string) : bool :=
  existsb (Ascii.eqb "000"%char) (list_ascii_of_string s).

(** [os.environ[name] = v]: only a string without a NUL character is
    accepted. *)
Definition environ_set (name : string) (v : Value) : M unit := λ s,
  match v with
  | VStr x =>
      if has_nul x then (Err ValueError, s, [])
      else (Ok (), mkSys (<[name := x]> (environ s)) (disk s) (handle s),
            [EvSetEnv name x])
  | _ => (Err TypeError, s, [])
  end.

(** ** The driver *)

Section Driver.
Context (h : Host).

(** [open(path, "w+")]: the file is created or truncated, and the file
    object starts with nothing buffered. *)
Definition open_w (path : string) : M unit := λ s,
  match io_fault h (OpOpen path) s with
  | Some e => (Err e, s, [EvOpen path (Some e)])
  | None =>
      (Ok (), mkSys (environ s) (<[path := ""]> (disk s)) (Some (path, "")),
       [EvOpen path None])
  end.

(** [fp.write(data)] *)
Definition fp_write (data : string) : M unit := λ s,
  match handle s with
  | None => (Err ValueError, s, [])
  | Some (path, buffered) =>
      match io_fault h (OpWrite path data) s with
      | Some e => (Err e, s, [EvWrite path data (Some e)])
      | None =>
          (Ok (), mkSys (environ s) (disk s) (Some (path, buffered +:+ data)),
           [EvWrite path data None])
      end
  end.

(** [fp.close()]: what was written reaches the disk; the file object is
    closed even when flushing fails. *)
Definition fp_close : M unit := λ s,
  match handle s with
  | None => (Ok (), s, [])
  | Some (path, buffered) =>
      match io_fault h (OpClose path) s with
      | Some e =>
          (Err e, mkSys (environ s) (disk s) None, [EvClose path (Some e)])
      | None =>
          (Ok (), mkSys (environ s) (<[path := buffered]> (disk s)) None,
           [EvClose path None])
      end
  end.

(** [with open(path, "w+") as fp: body] *)
Definition with_open_w (path : string) (body : M unit) : M unit :=
  open_w path;; finally body fp_close.

(** [_ = mlflow.run(uri, entry_point, parameters=parameters)] *)
Definition run (uri entry_point : string)
    (parameters : list (string * Value)) : M unit := λ s,
  let c := mkCall uri entry_point parameters in
  let '(raised, files) := mlflow_run h c s in
  (match raised with Some e => Err e | None => Ok () end,
   mkSys (environ s) files (handle s),
   [EvRun c s raised]).

(** Lines 25 to 29: the steps to execute.  A string is split on commas,
    anything else goes through [list].  The source looks the value up
    twice, for the test and for the use; the lookup has no effect, so it is
    done once here. *)
Definition steps_to_execute (config : Value) : Result (list Value) :=
  execute_steps ← getitem2 config "main" "execute_steps";
  match execute_steps with
  | VStr s => Ok (map VStr (split "," s))
  | _ => py_list execute_steps
  end.

(** Lines 32 to 44: first step, download. *)
Definition step_download (config : Value) (root_path : string)
    (steps : list Value) : M unit :=
  if py_in "download" steps then
    file_url ← lift (getitem2 config "data" "file_url");
    run (os_path_join root_path "download") "main"
      [("file_url", file_url);
       ("artifact_name", VStr "raw_data.parquet");
       ("artifact_type", VStr "raw_data");
       ("artifact_description", VStr "Data as downloaded")]
  else mret ().

(** Lines 47 to 62: second step, preprocess. *)
Definition step_preprocess (config : Value) (root_path : string)
    (steps : list Value) : M unit :=
  if py_in "preprocess" steps then
    run (os_path_join root_path "preprocess") "main"
      [("input_artifact", VStr "raw_data.parquet:latest");
       ("artifact_name", VStr "preprocessed_data.csv");
       ("artifact_type", VStr "preprocessed_data");
       ("artifact_description", VStr "Data with preprocessing applied")]
  else mret ().

(** Lines 66 to 82: third step, check_data. *)
Definition step_check_data (config : Value) (root_path : string)
    (steps : list Value) : M unit :=
  if py_in "check_data" steps then
    reference_dataset ← lift (getitem2 config "data" "reference_dataset");
    ks_alpha ← lift (getitem2 config "data" "ks_alpha");
    run (os_path_join root_path "check_data") "main"
      [("sample_artifact", VStr "preprocessed_data.csv:latest");
       ("reference_artifact", reference_dataset);
       ("ks_alpha", ks_alpha)]
  else mret ().

(** Lines 87 to 103: fourth step, segregate. *)
Definition step_segregate (config : Value) (root_path : string)
    (steps : list Value) : M unit :=
  if py_in "segregate" steps then
    test_size ← lift (getitem2 config "data" "test_size");
    stratify ← lift (getitem2 config "data" "stratify");
    run (os_path_join root_path "segregate") "main"
      [("input_artifact", VStr "preprocessed_data.csv:latest");
       ("test_size", test_size);
       ("stratify", stratify);
       ("artifact_root", VStr "data");
       ("artifact_type", VStr "segregated_data")]
  else mret ().

(** Lines 109 to 131: fifth step, random_forest.  The file is opened
    before the section is looked up and serialized, and it is closed when
    the [with] block is left, before the run. *)
Definition step_random_forest (config : Value) (root_path : string)
    (steps : list Value) : M unit :=
  if py_in "random_forest" steps then
    let model_config := os_path_abspath h "random_forest_config.yml" in
    with_open_w model_config
      (section ← lift (getitem config "random_forest_pipeline");
       text ← lift (to_yaml h section);
       fp_write text);;
    random_seed ← lift (getitem2 config "main" "random_seed");
    val_size ← lift (getitem2 config "data" "test_size");
    stratify ← lift (getitem2 config "data" "stratify");
    export_artifact ←
      lift (getitem2 config "random_forest_pipeline" "export_artifact");
    run (os_path_join root_path "random_forest") "main"
      [("train_data", VStr "data_train.csv:latest");
       ("model_config", VStr model_config);
       ("random_seed", random_seed);
       ("val_size", val_size);
       ("stratify", stratify);
       ("export_artifact", export_artifact)]
  else mret ().

(** Lines 135 to 146: last step, evaluate. *)
Definition step_evaluate (config : Value) (root_path : string)
    (steps : list Value) : M unit :=
  if py_in "evaluate" steps then
    export_artifact ←
      lift (getitem2 config "random_forest_pipeline" "export_artifact");
    run (os_path_join root_path "evaluate") "main"
      [("model_export",
        VStr (py_format (str_other h) export_artifact +:+ ":latest"));
       ("test_data", VStr "data_test.csv:latest")]
  else mret ().

(** Lines 32 to 146: the six steps, one after the other. *)
Definition run_steps (config : Value) (root_path : string)
    (steps : list Value) : M unit :=
  step_download config root_path steps;;
  step_preprocess config root_path steps;;
  step_check_data config root_path steps;;
  step_segregate config root_path steps;;
  step_random_forest config root_path steps;;
  step_evaluate config root_path steps.

(** Lines 14 and 17: the two environment variables. *)
Definition setup_environment (config : Value) : M unit :=
  project_name ← lift (getitem2 config "main" "project_name");
  environ_set "WANDB_PROJECT" project_name;;
  experiment_name ← lift (getitem2 config "main" "experiment_name");
  environ_set "WANDB_RUN_GROUP" experiment_name.

(** [go(config)] *)
Definition go (config : Value) : M unit :=
  setup_environment config;;
  let root_path := get_original_cwd h in
  steps ← lift (steps_to_execute config);
  run_steps config root_path steps.

End Driver.

(** ** The driver as a table of stages

    The same driver written the way the specification describes it: one
    pass over the six stages in their fixed order, each gated by membership
    in the selection, each one run of the stage's project with the stage's
    parameters.  [run_steps_table] below shows that [run_steps] is this
    pass. *)

Inductive Stage : Type :=
| download | preprocess | check_data | segregate | random_forest | evaluate.

#[global] Instance Stage_eq_dec : EqDecision Stage.
Proof. solve_decision. Defined.

Definition stage_name (st : Stage) : string :=
  match st with
  | download => "download"
  | preprocess => "preprocess"
  | check_data => "check_data"
  | segregate => "segregate"
  | random_forest => "random_forest"
  | evaluate => "evaluate"
  end.

(** The six stages in canonical order. *)
Definition all_stages : list Stage :=
  [download; preprocess; check_data; segregate; random_forest; evaluate].

(** Whether a stage is among the steps to execute. *)
Definition selected (steps : list Value) (st : Stage) : bool :=
  py_in (stage_name st) steps.

Definition outcome (raised : option Exn) : Result unit :=
  match raised with Some e => Err e | None => Ok () end.

Definition io_failure (ev : Event) : option Exn :=
  match ev with
  | EvOpen _ raised | EvWrite _ _ raised | EvClose _ raised => raised
  | _ => None
  end.

Definition run_failure (ev : Event) : option Exn :=
  match ev with EvRun _ _ raised => raised | _ => None end.

Definition is_file_event (ev : Event) : bool :=
  match ev with EvOpen _ _ | EvWrite _ _ _ | EvClose _ _ => true | _ => false end.

Definition is_setenv (ev : Event) : bool :=
  match ev with EvSetEnv _ _ => true | _ => false end.

Definition call_of (ev : Event) : option Call :=
  match ev with EvRun c _ _ => Some c | _ => None end.

(** The runs of a trace, in order, and the projects they ran. *)
Definition calls (t : list Event) : list Call := omap call_of t.
Definition invoked (t : list Event) : list string := uri <$> calls t.

(** The exception of the last file operation that failed. *)
Definition last_io_failure (t : list Event) : option Exn :=
  last (omap io_failure t).

Section Table.
Context (h : Host) (config : Value) (root_path : string).

Definition model_config_path : string :=
  os_path_abspath h "random_forest_config.yml".

(** The parameter contracts of the stages (the table of section 6). *)
Definition stage_parameters (st : Stage) : Result (list (string * Value)) :=
  match st with
  | download =>
      file_url ← getitem2 config "data" "file_url";
      Ok [("file_url", file_url);
          ("artifact_name", VStr "raw_data.parquet");
          ("artifact_type", VStr "raw_data");
          ("artifact_description", VStr "Data as downloaded")]
  | preprocess =>
      Ok [("input_artifact", VStr "raw_data.parquet:latest");
          ("artifact_name", VStr "preprocessed_data.csv");
          ("artifact_type", VStr "preprocessed_data");
          ("artifact_description", VStr "Data with preprocessing applied")]
  | check_data =>
      reference_dataset ← getitem2 config "data" "reference_dataset";
      ks_alpha ← getitem2 config "data" "ks_alpha";
      Ok [("sample_artifact", VStr "preprocessed_data.csv:latest");
          ("reference_artifact", reference_dataset);
          ("ks_alpha", ks_alpha)]
  | segregate =>
      test_size ← getitem2 config "data" "test_size";
      stratify ← getitem2 config "data" "stratify";
      Ok [("input_artifact", VStr "preprocessed_data.csv:latest");
          ("test_size", test_size);
          ("stratify", stratify);
          ("artifact_root", VStr "data");
          ("artifact_type", VStr "segregated_data")]
  | random_forest =>
      random_seed ← getitem2 config "main" "random_seed";
      val_size ← getitem2 config "data" "test_size";
      stratify ← getitem2 config "data" "stratify";
      export_artifact ←
        getitem2 config "random_forest_pipeline" "export_artifact";
      Ok [("train_data", VStr "data_train.csv:latest");
          ("model_config", VStr model_config_path);
          ("random_seed", random_seed);
          ("val_size", val_size);
          ("stratify", stratify);
          ("export_artifact", export_artifact)]
  | evaluate =>
      export_artifact ←
        getitem2 config "random_forest_pipeline" "export_artifact";
      Ok [("model_export",
           VStr (py_format (str_other h) export_artifact +:+ ":latest"));
          ("test_data", VStr "data_test.csv:latest")]
  end.

(** Writing the training configuration: the [random_forest_pipeline]
    section, serialized, into the file at [model_config_path]. *)
Definition write_model_config : M unit :=
  with_open_w h model_config_path
    (section ← lift (getitem config "random_forest_pipeline");
     text ← lift (to_yaml h section);
     fp_write h text).

(** What has to be on disk before a stage is run. *)
Definition stage_prepare (st : Stage) : M unit :=
  match st with
  | random_forest => write_model_config
  | _ => mret ()
  end.

Definition stage_uri (st : Stage) : string :=
  os_path_join root_path (stage_name st).

(** One stage: prepare, build the parameters, run. *)
Definition stage_body (st : Stage) : M unit :=
  stage_prepare st;;
  params ← lift (stage_parameters st);
  run h (stage_uri st) "main" params.

Definition gate (steps : list Value) (st : Stage) : M unit :=
  if selected steps st then stage_body st else mret ().

Fixpoint run_list (steps : list Value) (l : list Stage) : M unit :=
  match l with
  | [] => mret ()
  | st :: l' => gate steps st;; run_list steps l'
  end.

(** What [stage_prepare] can do: nothing, for every stage but
    [random_forest]; for [random_forest], either the three file operations
    succeed and the serialized section is on disk with the file closed, or
    an exception leaves after file events only. *)
Inductive prepare_outcome (st : Stage) (s : Sys)
    : Result unit * Sys * list Event → Prop :=
| prepare_nothing :
    st ≠ random_forest → prepare_outcome st s (Ok (), s, [])
| prepare_written section text :
    st = random_forest →
    getitem config "random_forest_pipeline" = Ok section →
    to_yaml h section = Ok text →
    prepare_outcome st s
      (Ok (),
       mkSys (environ s)
         (<[model_config_path := text]> (<[model_config_path := ""]> (disk s)))
         None,
       [EvOpen model_config_path None;
        EvWrite model_config_path text None;
        EvClose model_config_path None])
| prepare_raised e s' t :
    st = random_forest →
    environ s' = environ s →
    Forall (λ ev, is_file_event ev = true) t →
    (∀ e', last_io_failure t = Some e' → e' = e) →
    prepare_outcome st s (Err e, s', t).

(** What [stage_body] can do: raise while preparing, raise while building
    the parameters, or run the stage once. *)
Inductive stage_outcome (st : Stage) (s : Sys)
    : Result unit * Sys * list Event → Prop :=
| stage_prepare_raised e sp tp :
    prepare_outcome st s (Err e, sp, tp) →
    stage_outcome st s (Err e, sp, tp)
| stage_parameters_raised e sp tp :
    prepare_outcome st s (Ok (), sp, tp) →
    stage_parameters st = Err e →
    stage_outcome st s (Err e, sp, tp)
| stage_ran sp tp params raised files :
    prepare_outcome st s (Ok (), sp, tp) →
    stage_parameters st = Ok params →
    mlflow_run h (mkCall (stage_uri st) "main" params) sp = (raised, files) →
    stage_outcome st s
      (outcome raised, mkSys (environ sp) files (handle sp),
       tp ++ [EvRun (mkCall (stage_uri st) "main" params) sp raised]).

(** What [setup_environment] can do. *)
Inductive setup_outcome (s : Sys) : Result unit * Sys * list Event → Prop :=
| setup_done project experiment :
    getitem2 config "main" "project_name" = Ok (VStr project) →
    getitem2 config "main" "experiment_name" = Ok (VStr experiment) →
    setup_outcome s
      (Ok (),
       mkSys (<["WANDB_RUN_GROUP" := experiment]>
                (<["WANDB_PROJECT" := project]> (environ s)))
         (disk s) (handle s),
       [EvSetEnv "WANDB_PROJECT" project;
        EvSetEnv "WANDB_RUN_GROUP" experiment])
| setup_raised e s' t :
    Forall (λ ev, is_setenv ev = true) t →
    setup_outcome s (Err e, s', t).

End Table.

(** ** Reasoning about computations *)

(** [hoare P m Q E]: started in a process and after a trace that satisfy
    [P], the computation [m] either returns a value with [Q] holding of it,
    of the process and of the whole trace, or raises an exception with [E]
    holding.  The computation always ends: [M] is a function. *)
Definition hoare {A} (P : Sys → list Event → Prop) (m : M A)
    (Q : A → Sys → list Event → Prop) (E : Exn → Sys → list Event → Prop)
    : Prop :=
  ∀ s t, P s t →
    match m s with
    | (Ok a, s', t') => Q a s' (t ++ t')
    | (Err e, s', t') => E e s' (t ++ t')
    end.


(** ** The selection as the specification words it *)

(** [s.strip()] *)
Definition is_space (c : ascii) : bool :=
  existsb (Ascii.eqb c)
    [" "%char; "009"%char; "010"%char; "011"%char; "012"%char; "013"%char].

Fixpoint lstrip (s : string) : string :=
  match s with
  | String c s' => if is_space c then lstrip s' else s
  | EmptyString => EmptyString
  end.

Definition strip (s : string) : string :=
  String.rev (lstrip (String.rev (lstrip s))).

(** The selection of section 4.1: a string is split on commas and each
    piece trimmed, a sequence is used as it is, and an absent value stands
    for all six stage names in canonical order. *)
Definition resolve_selection (config : Value) : Result (list Value) :=
  match getitem2 config "main" "execute_steps" with
  | Ok (VStr s) => Ok (VStr <$> (strip <$> split "," s))
  | Ok VNone | Err _ => Ok (VStr <$> (stage_name <$> all_stages))
  | Ok v => py_list v
  end.

(** [",".join(names)] *)
Fixpoint join_commas (names : list string) : string :=
  match names with
  | [] => ""
  | [name] => name
  | name :: names' => name +:+ "," +:+ join_commas names'
  end.

Definition comma_free (s : string) : bool :=
  forallb (λ c, negb (Ascii.eqb c ","%char)) (list_ascii_of_string s).

(** Whether a step to execute is the name of one of the six stages. *)
Definition known_step (v : Value) : bool :=
  existsb (λ st, str_eq (stage_name st) v) all_stages.

(** ** Changing the steps of a configuration *)

Fixpoint dict_set {A} (k : string) (v : A) (l : list (string * A))
    : list (string * A) :=
  match l with
  | [] => [(k, v)]
  | (k', v') :: l' =>
      if String.eqb k k' then (k, v) :: l' else (k', v') :: dict_set k v l'
  end.

(** The configuration with [main.execute_steps] set to [v] (as an override
    on the command line does); a configuration without a [main] mapping is
    left alone. *)
Definition with_execute_steps (config : Value) (v : Value) : Value :=
  match config with
  | VDict fields =>
      match assoc "main" fields with
      | Some (VDict main) =>
          VDict (dict_set "main" (VDict (dict_set "execute_steps" v main)) fields)
      | _ => config
      end
  | _ => config
  end.

(** ** A configuration and hosts to run the driver on *)

Module Sample.

Definition newline : string := String "010"%char EmptyString.

(** A serializer for mappings of strings, one [key: value] line each:
    enough of YAML for the flat training section below. *)
Fixpoint flat_yaml (fields : list (string * Value)) : Result string :=
  match fields with
  | [] => Ok ""
  | (k, VStr v) :: fields' =>
      rest ← flat_yaml fields';
      Ok (k +:+ ": " +:+ v +:+ newline +:+ rest)
  | _ => Err ValueError
  end.

Definition dump (v : Value) : Result string :=
  match v with
  | VDict fields => flat_yaml fields
  | _ => Err ValueError
  end.

Definition six_names : Value :=
  VList [VStr "download"; VStr "preprocess"; VStr "check_data";
         VStr "segregate"; VStr "random_forest"; VStr "evaluate"].

Definition data_section : Value :=
  VDict [("file_url", VStr "https://example.org/genres_mod.parquet");
         ("reference_dataset", VStr "genres/preprocessed_data.csv:latest");
         ("ks_alpha", VFloat 7205759403792794 (-57));
         ("test_size", VFloat 5404319552844595 (-54));
         ("stratify", VStr "genre")].

Definition training_section : Value :=
  VDict [("criterion", VStr "gini");
         ("export_artifact", VStr "model_export")].

(** A configuration whose [main] section holds the given fields besides
    the two names. *)
Definition config_with (main : list (string * Value)) : Value :=
  VDict [("main",
          VDict (("project_name", VStr "genre_classification")
                 :: ("experiment_name", VStr "dev") :: main));
         ("data", data_section);
         ("random_forest_pipeline", training_section)].

(** The configuration with the given steps to execute. *)
Definition config (execute_steps : Value) : Value :=
  config_with [("execute_steps", execute_steps); ("random_seed", VInt 42)].

(** A host on which the runs of the projects chosen by [fails] raise, and
    file operations fail as [fault] says. *)
Definition host (fails : string → bool) (fault : IoOp → option Exn) : Host :=
  {| get_original_cwd := "/repo";
     os_path_abspath := os_path_join "/repo/outputs";
     to_yaml := dump;
     str_other := λ _, "";
     io_fault := λ op _, fault op;
     mlflow_run := λ c s,
       (if fails (uri c) then Some (ExecutionException (uri c)) else None,
        disk s) |}.

(** Nothing fails. *)
Definition quiet : Host := host (λ _, false) (λ _, None).

(** The run of [check_data] fails. *)
Definition check_data_fails : Host :=
  host (String.eqb "/repo/check_data") (λ _, None).

(** Writing to a file fails: no space left on the device. *)
Definition disk_full : Host :=
  host (λ _, false)
       (λ op, match op with OpWrite _ _ => Some (OSError 28) | _ => None end).

Definition boot : Sys := mkSys ∅ ∅ None.

End Sample.

(** ** Shapes of traces *)

(** No run of the trace failed. *)
Definition no_failed_run (t : list Event) : Prop :=
  Forall (λ ev, run_failure ev = None) t.

(** The trace ends with a run that raised [e], the only run that failed. *)
Definition failed_run_last (e : Exn) (t : list Event) : Prop :=
  ∃ pre c seen, t = pre ++ [EvRun c seen (Some e)] ∧ no_failed_run pre.

(** The training configuration is on disk, in full, and the file is
    closed. *)
Definition config_on_disk (h : Host) (config : Value) (seen : Sys) : Prop :=
  handle seen = None ∧
  ∃ section text,
    getitem config "random_forest_pipeline" = Ok section ∧
    to_yaml h section = Ok text ∧
    disk seen !! model_config_path h = Some text.

(** A run is a run of the table: some stage's project, its entry point
    [main], the stage's parameters, and for [random_forest] the training
    configuration on disk when the run starts. *)
Definition table_run (h : Host) (config : Value) (root_path : string)
    (ev : Event) : Prop :=
  match ev with
  | EvRun c seen _ =>
      ∃ st params,
        c = mkCall (stage_uri root_path st) "main" params ∧
        stage_parameters h config st = Ok params ∧
        (st = random_forest → config_on_disk h config seen)
  | _ => True
  end.

(** The stages among [l] that are selected, in the order of [l]. *)
Definition selected_of (steps : list Value) (l : list Stage) : list Stage :=
  filter (λ st, selected steps st) l.

(** The environment once the two variables are set. *)
Definition environ_after (s0 : Sys) (project experiment : string)
    : gmap string string :=
  <["WANDB_RUN_GROUP" := experiment]>
    (<["WANDB_PROJECT" := project]> (environ s0)).

(** The trace starts with the two assignments, of the two names of the
    [main] section; nothing after them touches the environment, and every
    run sees the two variables set. *)
Definition environment_ready (config : Value) (s0 s : Sys) (t : list Event)
    : Prop :=
  ∃ project experiment rest,
    getitem2 config "main" "project_name" = Ok (VStr project) ∧
    getitem2 config "main" "experiment_name" = Ok (VStr experiment) ∧
    t = EvSetEnv "WANDB_PROJECT" project
        :: EvSetEnv "WANDB_RUN_GROUP" experiment :: rest ∧
    environ s = environ_after s0 project experiment ∧
    Forall (λ ev, is_setenv ev = false ∧
                  match ev with
                  | EvRun _ seen _ =>
                      environ seen = environ_after s0 project experiment
                  | _ => True
                  end) rest.

(** What holds of a run of [random_forest], of the process it sees and of
    the trace before it: the path of the training configuration is its
    [model_config], the file is closed, its content on disk is the
    serialized section, and the last three events before the run are the
    opening, the one write and the closing of that file, all successful. *)
Definition training_run_ready (h : Host) (config : Value)
    (pre : list Event) (c : Call) (seen : Sys) : Prop :=
  assoc "model_config" (parameters c) = Some (VStr (model_config_path h)) ∧
  handle seen = None ∧
  ∃ section text before,
    getitem config "random_forest_pipeline" = Ok section ∧
    to_yaml h section = Ok text ∧
    disk seen !! model_config_path h = Some text ∧
    pre = before ++ [EvOpen (model_config_path h) None;
                     EvWrite (model_config_path h) text None;
                     EvClose (model_config_path h) None].

Definition written_before (h : Host) (config : Value) (root_path : string)
    (t : list Event) : Prop :=
  ∀ pre c seen raised post,
    t = pre ++ EvRun c seen raised :: post →
    uri c = stage_uri root_path random_forest →
    training_run_ready h config pre c seen.

(** Two configurations that differ at most in [main.execute_steps]. *)
Definition same_but_steps (c1 c2 : Value) : Prop :=
  getitem c1 "random_forest_pipeline" = getitem c2 "random_forest_pipeline" ∧
  ∀ section key,
    section ≠ "main" ∨ key ≠ "execute_steps" →
    getitem2 c1 section key = getitem2 c2 section key.

(** The call that the table prescribes for a stage: the stage's project,
    the entry point [main], the stage's parameters. *)
Definition stage_call (h : Host) (config : Value) (root_path : string)
    (st : Stage) : Result Call :=
  params ← stage_parameters h config st;
  Ok (mkCall (stage_uri root_path st) "main" params).

(** The runs of the trace are, one for one and in order, the calls of the
    stages [ran]. *)
Definition calls_of_stages (h : Host) (config : Value) (root_path : string)
    (t : list Event) (ran : list Stage) : Prop :=
  Forall2 (λ c st, stage_call h config root_path st = Ok c) (calls t) ran.





(** ** The driver on the sample configuration *)

Example split_keeps_blanks :
  split "," "download, preprocess,,evaluate"
  = ["download"; " preprocess"; ""; "evaluate"].
Proof. reflexivity. Qed.

Example split_empty : split "," "" = [""].
Proof. reflexivity. Qed.

Example join_plain : os_path_join "/repo" "download" = "/repo/download".
Proof. reflexivity. Qed.

Example join_after_slash : os_path_join "/repo/" "download" = "/repo/download".
Proof. reflexivity. Qed.

Example full_pass :
  let out := go Sample.quiet (Sample.config Sample.six_names) Sample.boot in
  out.1.1 = Ok () ∧
  invoked out.2
  = ["/repo/download"; "/repo/preprocess"; "/repo/check_data";
     "/repo/segregate"; "/repo/random_forest"; "/repo/evaluate"] ∧
  handle out.1.2 = None.
Proof. by vm_compute. Qed.

Example steps_from_mapping_keys :
  steps_to_execute
    (Sample.config (VDict [("evaluate", VNone); ("download", VBool true)]))
  = Ok [VStr "evaluate"; VStr "download"].
Proof. reflexivity. Qed.

Example project_name_must_be_a_string :
  let out :=
    go Sample.quiet
      (VDict [("main", VDict [("project_name", VInt 7);
                              ("experiment_name", VStr "dev");
                              ("execute_steps", Sample.six_names)])])
      Sample.boot in
  out.1.1 = Err TypeError ∧ out.2 = [].
Proof. by vm_compute. Qed.

(** ** Rules of the triples *)

Lemma hoare_ret {A} (a : A) P Q E :
  (∀ s t, P s t → Q a s t) → hoare P (mret a) Q E.
Proof. intros H s t HP. cbn. rewrite app_nil_r. auto. Qed.

Lemma hoare_lift {A} (r : Result A) P Q E :
  (∀ s t, P s t → match r with Ok a => Q a s t | Err e => E e s t end) →
  hoare P (lift r) Q E.
Proof.
  intros H s t HP. specialize (H s t HP). unfold lift.
  destruct r; rewrite app_nil_r; exact H.
Qed.

Lemma hoare_bind {A B} (m : M A) (f : A → M B) P R Q E :
  hoare P m R E → (∀ a, hoare (R a) (f a) Q E) → hoare P (m ≫= f) Q E.
Proof.
  intros Hm Hf s t HP. specialize (Hm s t HP).
  unfold mbind, M_bind.
  destruct (m s) as [[[a|e] s1] t1]; [|exact Hm].
  specialize (Hf a s1 (t ++ t1) Hm).
  destruct (f a s1) as [[r s2] t2]. rewrite app_assoc. exact Hf.
Qed.

Lemma hoare_conseq {A} (m : M A) (P P' : Sys → list Event → Prop)
    (Q Q' : A → Sys → list Event → Prop) (E E' : Exn → Sys → list Event → Prop) :
  hoare P' m Q' E' →
  (∀ s t, P s t → P' s t) →
  (∀ a s t, Q' a s t → Q a s t) →
  (∀ e s t, E' e s t → E e s t) →
  hoare P m Q E.
Proof.
  intros Hm HP HQ HE s t H. specialize (Hm s t (HP s t H)).
  destruct (m s) as [[[a|e] s1] t1]; auto.
Qed.

(** Running a computation from a process, with nothing before it. *)
Lemma hoare_run_from {A} (m : M A) (P : Sys → list Event → Prop) Q E s :
  hoare P m Q E → P s [] →
  match m s with
  | (Ok a, s', t') => Q a s' t'
  | (Err e, s', t') => E e s' t'
  end.
Proof. intros Hm HP. exact (Hm s [] HP). Qed.

(** ** [run_steps] is the pass over the table *)

Lemma bind_ext {A B} (m m' : M A) (f f' : A → M B) s :
  m s = m' s → (∀ a s1, f a s1 = f' a s1) → (m ≫= f) s = (m' ≫= f') s.
Proof.
  intros Hm Hf. unfold mbind, M_bind. rewrite Hm.
  destruct (m' s) as [[[a|e] s1] t1]; [|reflexivity]. by rewrite Hf.
Qed.

Lemma bind_ret_unit (m : M unit) s : (m;; mret ()) s = m s.
Proof.
  unfold mbind, M_bind. destruct (m s) as [[[[]|e] s1] t1]; [|reflexivity].
  cbn. by rewrite app_nil_r.
Qed.

Lemma ret_bind {A B} (a : A) (f : A → M B) s : (mret a ≫= f) s = f a s.
Proof.
  unfold mbind, M_bind, mret, M_ret. by destruct (f a s) as [[r s2] t2].
Qed.

Lemma lift_bind {A B} (r : Result A) (f : A → M B) s :
  (lift r ≫= f) s = match r with Ok a => f a s | Err e => (Err e, s, []) end.
Proof.
  unfold mbind, M_bind, lift. destruct r as [a|e]; [|reflexivity].
  by destruct (f a s) as [[r s2] t2].
Qed.

Section Refinement.
Context (h : Host) (config : Value) (root_path : string) (steps : list Value).

Ltac params_eq :=
  rewrite ?ret_bind, ?lift_bind; cbn [stage_parameters];
  repeat (rewrite ?lift_bind; unfold mbind at 1, Result_bind at 1;
          match goal with
          | |- context [getitem2 ?c ?a ?b] => destruct (getitem2 c a b)
          end);
  rewrite ?lift_bind; try reflexivity.

Ltac gate_eq st :=
  intros s; unfold gate, selected, stage_body, stage_prepare, stage_uri;
  cbn [stage_name]; destruct (py_in _ steps); [|reflexivity]; params_eq.

Lemma step_download_gate s :
  step_download h config root_path steps s = gate h config root_path steps download s.
Proof. revert s. unfold step_download. gate_eq download. Qed.

Lemma step_preprocess_gate s :
  step_preprocess h config root_path steps s = gate h config root_path steps preprocess s.
Proof. revert s. unfold step_preprocess. gate_eq preprocess. Qed.

Lemma step_check_data_gate s :
  step_check_data h config root_path steps s = gate h config root_path steps check_data s.
Proof. revert s. unfold step_check_data. gate_eq check_data. Qed.

Lemma step_segregate_gate s :
  step_segregate h config root_path steps s = gate h config root_path steps segregate s.
Proof. revert s. unfold step_segregate. gate_eq segregate. Qed.

Lemma step_random_forest_gate s :
  step_random_forest h config root_path steps s
  = gate h config root_path steps random_forest s.
Proof.
  unfold step_random_forest, gate, selected, stage_body, stage_prepare, stage_uri.
  cbn [stage_name]. destruct (py_in _ steps); [|reflexivity].
  apply bind_ext; [reflexivity|]. intros _ s1. params_eq.
Qed.

Lemma step_evaluate_gate s :
  step_evaluate h config root_path steps s = gate h config root_path steps evaluate s.
Proof. revert s. unfold step_evaluate. gate_eq evaluate. Qed.

(** The six [if] blocks of [go] are one pass over [all_stages]. *)
Lemma run_steps_table s :
  run_steps h config root_path steps s
  = run_list h config root_path steps all_stages s.
Proof.
  unfold run_steps, all_stages. cbn [run_list].
  apply bind_ext; [apply step_download_gate|]. intros _ s1.
  apply bind_ext; [apply step_preprocess_gate|]. intros _ s2.
  apply bind_ext; [apply step_check_data_gate|]. intros _ s3.
  apply bind_ext; [apply step_segregate_gate|]. intros _ s4.
  apply bind_ext; [apply step_random_forest_gate|]. intros _ s5.
  rewrite bind_ret_unit. apply step_evaluate_gate.
Qed.

End Refinement.

(** ** What one stage does *)

Section Outcomes.
Context (h : Host) (config : Value) (root_path : string).

Lemma write_model_config_outcome s :
  prepare_outcome h config random_forest s (write_model_config h config s).
Proof.
  unfold write_model_config, with_open_w, finally, open_w, fp_write, fp_close.
  unfold mbind, M_bind, lift.
  set (p := model_config_path h).
  destruct (io_fault h (OpOpen p) s) as [e|] eqn:Hopen; cbn.
  { apply prepare_raised; [done|done|repeat constructor|cbn; congruence]. }
  destruct (getitem config "random_forest_pipeline") as [section|e] eqn:Hsec; cbn.
  2:{ destruct (io_fault h (OpClose p) _) as [e2|]; cbn;
      (apply prepare_raised; [done|done|repeat constructor|cbn; congruence]). }
  destruct (to_yaml h section) as [text|e] eqn:Hyaml; cbn.
  2:{ destruct (io_fault h (OpClose p) _) as [e2|]; cbn;
      (apply prepare_raised; [done|done|repeat constructor|cbn; congruence]). }
  destruct (io_fault h (OpWrite p text) _) as [e|] eqn:Hwrite; cbn.
  { destruct (io_fault h (OpClose p) _) as [e2|]; cbn;
      (apply prepare_raised; [done|done|repeat constructor|cbn; congruence]). }
  destruct (io_fault h (OpClose p) _) as [e2|] eqn:Hclose; cbn.
  { apply prepare_raised; [done|done|repeat constructor|cbn; congruence]. }
  eapply prepare_written; eauto.
Qed.

Lemma stage_prepare_outcome st s :
  prepare_outcome h config st s (stage_prepare h config st s).
Proof.
  destruct st; try (apply prepare_nothing; discriminate).
  apply write_model_config_outcome.
Qed.

Lemma stage_body_outcome st s :
  stage_outcome h config root_path st s (stage_body h config root_path st s).
Proof.
  unfold stage_body. unfold mbind at 1, M_bind at 1.
  pose proof (stage_prepare_outcome st s) as Hp.
  destruct (stage_prepare h config st s) as [[[[]|e] sp] tp].
  2:{ by apply stage_prepare_raised. }
  rewrite lift_bind.
  destruct (stage_parameters h config st) as [params|e] eqn:Hps.
  2:{ rewrite app_nil_r. by apply stage_parameters_raised. }
  unfold run.
  destruct (mlflow_run h _ sp) as [raised files] eqn:Hrun.
  exact (stage_ran h config root_path st s sp tp params raised files Hp Hps Hrun).
Qed.

Lemma setup_environment_outcome s :
  setup_outcome config s (setup_environment config s).
Proof.
  unfold setup_environment. rewrite lift_bind.
  destruct (getitem2 config "main" "project_name") as [v1|e] eqn:H1.
  2:{ by apply setup_raised. }
  unfold mbind at 1, M_bind at 1. unfold environ_set at 1.
  destruct v1; try (by apply setup_raised).
  destruct (has_nul s0); [by apply setup_raised|].
  rewrite lift_bind.
  destruct (getitem2 config "main" "experiment_name") as [v2|e] eqn:H2.
  2:{ apply setup_raised. by repeat constructor. }
  unfold environ_set.
  destruct v2; try (apply setup_raised; by repeat constructor).
  destruct (has_nul s1); [apply setup_raised; by repeat constructor|].
  cbn. by apply setup_done.
Qed.

End Outcomes.

(** ** Triples for the pass and for [go] *)

Section Pass.
Context (h : Host) (config : Value).

Lemma hoare_gate root_path steps st (P : Sys → list Event → Prop)
    (Q : unit → Sys → list Event → Prop) E :
  (selected steps st = false → ∀ s t, P s t → Q () s t) →
  (selected steps st = true → ∀ s t r s' t',
     P s t → stage_outcome h config root_path st s (r, s', t') →
     match r with
     | Ok _ => Q () s' (t ++ t')
     | Err e => E e s' (t ++ t')
     end) →
  hoare P (gate h config root_path steps st) Q E.
Proof.
  intros Hskip Hrun. unfold gate.
  destruct (selected steps st).
  - intros s t HP. pose proof (stage_body_outcome h config root_path st s) as Ho.
    destruct (stage_body h config root_path st s) as [[r s'] t'].
    specialize (Hrun eq_refl s t r s' t' HP Ho). by destruct r as [[]|e].
  - apply hoare_ret. auto.
Qed.

(** An invariant indexed by the stages already passed carries through the
    rest of the pass. *)
Lemma hoare_run_list root_path steps (whole : list Stage)
    (I : list Stage → Sys → list Event → Prop) E :
  (∀ done st rest, whole = done ++ st :: rest →
     hoare (I done) (gate h config root_path steps st)
       (λ _, I (done ++ [st])) E) →
  ∀ rest done, whole = done ++ rest →
    hoare (I done) (run_list h config root_path steps rest) (λ _, I whole) E.
Proof.
  intros Hgate rest. induction rest as [|st rest IH]; intros done Hw.
  - rewrite app_nil_r in Hw. rewrite Hw. by apply hoare_ret.
  - cbn [run_list]. eapply hoare_bind.
    + by apply (Hgate done st rest).
    + intros []. apply IH. by rewrite <- app_assoc.
Qed.

Lemma hoare_go (P : Sys → list Event → Prop)
    (I : list Value → list Stage → Sys → list Event → Prop) E :
  (∀ s t r s' t', P s t → setup_outcome config s (r, s', t') →
     match r with
     | Ok _ =>
         match steps_to_execute config with
         | Ok steps => I steps [] s' (t ++ t')
         | Err e => E e s' (t ++ t')
         end
     | Err e => E e s' (t ++ t')
     end) →
  (∀ steps done st rest,
     steps_to_execute config = Ok steps → all_stages = done ++ st :: rest →
     hoare (I steps done) (gate h config (get_original_cwd h) steps st)
       (λ _, I steps (done ++ [st])) E) →
  hoare P (go h config)
    (λ _ s t, ∃ steps,
       steps_to_execute config = Ok steps ∧ I steps all_stages s t) E.
Proof.
  intros Hsetup Hgate s t HP. unfold go.
  unfold mbind at 1, M_bind at 1.
  pose proof (setup_environment_outcome config s) as Ho.
  destruct (setup_environment config s) as [[r s1] t1].
  specialize (Hsetup s t r s1 t1 HP Ho).
  destruct r as [[]|e]; [|exact Hsetup].
  rewrite lift_bind.
  destruct (steps_to_execute config) as [steps|e] eqn:Hsteps.
  2:{ by rewrite app_nil_r. }
  rewrite run_steps_table.
  pose proof (hoare_run_list (get_original_cwd h) steps all_stages (I steps) E
                (λ done st rest, Hgate steps done st rest eq_refl)
                all_stages [] eq_refl s1 (t ++ t1) Hsetup) as Hpass.
  destruct (run_list _ _ _ _ _ s1) as [[r2 s2] t2].
  rewrite app_assoc. destruct r2 as [[]|e]; [|exact Hpass].
  by exists steps.
Qed.

End Pass.

(** ** Facts about traces and outcomes *)

Lemma calls_app t1 t2 : calls (t1 ++ t2) = calls t1 ++ calls t2.
Proof. apply omap_app. Qed.

Lemma invoked_app t1 t2 : invoked (t1 ++ t2) = invoked t1 ++ invoked t2.
Proof. unfold invoked. by rewrite calls_app, fmap_app. Qed.

Lemma file_events_no_calls t :
  Forall (λ ev, is_file_event ev = true) t → calls t = [].
Proof.
  induction 1 as [|ev t Hev _ IH]; [done|].
  unfold calls in *. cbn. destruct ev; try discriminate; exact IH.
Qed.

Lemma setenv_events_no_calls t :
  Forall (λ ev, is_setenv ev = true) t → calls t = [].
Proof.
  induction 1 as [|ev t Hev _ IH]; [done|].
  unfold calls in *. cbn. destruct ev; try discriminate; exact IH.
Qed.

Lemma file_events_no_failed_run t :
  Forall (λ ev, is_file_event ev = true) t → no_failed_run t.
Proof.
  intros H. eapply Forall_impl; [exact H|]. by intros [].
Qed.

Lemma setenv_events_no_failed_run t :
  Forall (λ ev, is_setenv ev = true) t → no_failed_run t.
Proof.
  intros H. eapply Forall_impl; [exact H|]. by intros [].
Qed.

Lemma prepare_outcome_events h config st s r s' t :
  prepare_outcome h config st s (r, s', t) →
  Forall (λ ev, is_file_event ev = true) t ∧ environ s' = environ s.
Proof. inversion 1; subst; split; try done; by repeat constructor. Qed.

(** A failed run in a trace that ends with its only failed run is that last
    run. *)
Lemma failed_run_is_last t pre c seen e post e' :
  failed_run_last e' t →
  t = pre ++ EvRun c seen (Some e) :: post →
  post = [] ∧ e = e'.
Proof.
  intros (pre' & c' & seen' & -> & Hquiet) Heq.
  destruct post as [|ev post _] using rev_ind.
  - apply app_inj_tail in Heq as [_ Heq]. by inversion Heq.
  - exfalso. rewrite app_comm_cons, app_assoc in Heq.
    apply app_inj_tail in Heq as [-> _].
    unfold no_failed_run in Hquiet.
    rewrite Forall_app, Forall_cons in Hquiet.
    by destruct Hquiet as [_ [? _]].
Qed.

Lemma no_failed_run_has_none t pre c seen e post :
  no_failed_run t → t ≠ pre ++ EvRun c seen (Some e) :: post.
Proof.
  intros Hquiet ->. unfold no_failed_run in Hquiet.
  rewrite Forall_app, Forall_cons in Hquiet. by destruct Hquiet as [_ [? _]].
Qed.

(** ** C1: a failed run ends the pass *)

Lemma gate_fail_fast h config root_path steps st :
  hoare (λ _ t, no_failed_run t) (gate h config root_path steps st)
    (λ _ _ t, no_failed_run t)
    (λ e _ t, no_failed_run t ∨ failed_run_last e t).
Proof.
  apply hoare_gate; [done|]. intros _ s t r s' t' Hquiet Ho.
  inversion Ho as [e sp tp Hp|e sp tp Hp Hps|sp tp ps raised files Hp Hps Hrun];
    subst; apply prepare_outcome_events in Hp as [Hfile _];
    apply file_events_no_failed_run in Hfile.
  - left. by apply Forall_app.
  - left. by apply Forall_app.
  - assert (no_failed_run (t ++ tp)) as Hpre by by apply Forall_app.
    destruct raised as [e|]; cbn.
    + right. exists (t ++ tp), (mkCall (stage_uri root_path st) "main" ps), sp.
      by rewrite app_assoc.
    + rewrite app_assoc. apply Forall_app. split; [done|]. by repeat constructor.
Qed.

Lemma go_fail_fast h config :
  hoare (λ _ t, t = []) (go h config)
    (λ _ _ t, no_failed_run t)
    (λ e _ t, no_failed_run t ∨ failed_run_last e t).
Proof.
  eapply hoare_conseq.
  - apply (hoare_go h config (λ _ t, t = []) (λ _ _ _ t, no_failed_run t)
             (λ e _ t, no_failed_run t ∨ failed_run_last e t)).
    + intros s t r s' t' -> Ho. cbn.
      assert (no_failed_run t') as Hq.
      { inversion Ho; subst; [by repeat constructor|].
        by apply setenv_events_no_failed_run. }
      destruct r; [destruct (steps_to_execute config)|]; auto.
    + intros steps done st rest _ _. apply gate_fail_fast.
  - done.
  - by intros _ s t (steps & _ & Hq).
  - done.
Qed.

(** C1.  When a run raises, whatever the stage ([check_data] or another),
    it is the last thing [go] does: no later stage is invoked (nothing at
    all follows it in the trace), and [go] raises the exception of the
    run. *)
Theorem go_aborts_at_failed_run h config s pre c seen e post :
  (go h config s).2 = pre ++ EvRun c seen (Some e) :: post →
  post = [] ∧ (go h config s).1.1 = Err e.
Proof.
  intros Ht.
  pose proof (hoare_run_from (go h config) _ _ _ s (go_fail_fast h config) eq_refl)
    as Hgo.
  destruct (go h config s) as [[r s'] t]. cbn in Ht |- *.
  destruct r as [[]|e'].
  - by apply no_failed_run_has_none with (pre := pre) (c := c) (seen := seen)
      (e := e) (post := post) in Hgo.
  - destruct Hgo as [Hq|Hlast].
    + by eapply no_failed_run_has_none in Hq.
    + destruct (failed_run_is_last _ _ _ _ _ _ _ Hlast Ht) as [-> ->]. done.
Qed.

(** A witness: with the six steps to execute and a failing [check_data],
    [go] stops after three runs and raises what the run raised. *)
Lemma go_aborts_at_failed_run_witness :
  (go Sample.check_data_fails (Sample.config Sample.six_names) Sample.boot).1.1
    = Err (ExecutionException "/repo/check_data")
  ∧ invoked
      (go Sample.check_data_fails (Sample.config Sample.six_names) Sample.boot).2
    = ["/repo/download"; "/repo/preprocess"; "/repo/check_data"].
Proof.
  split; [|vm_compute; reflexivity].
  eapply (go_aborts_at_failed_run Sample.check_data_fails
            (Sample.config Sample.six_names) Sample.boot [_; _; _; _] _ _ _ _).
  reflexivity.
Defined.

(** ** Every run is a run of the table *)

Lemma append_inj_l (a b c : string) : a +:+ b = a +:+ c → b = c.
Proof. induction a as [|x a IH]; cbn; [done|]. intros [= H]. auto. Qed.

(** Different stages are different projects. *)
Lemma stage_uri_inj root_path st1 st2 :
  stage_uri root_path st1 = stage_uri root_path st2 → st1 = st2.
Proof.
  unfold stage_uri, os_path_join.
  assert (∀ st, starts_with_slash (stage_name st) = false) as Hns by by intros [].
  rewrite !Hns.
  destruct (match root_path with "" => true | _ => ends_with_slash root_path end);
    intros H%append_inj_l; destruct st1, st2; done.
Qed.

Lemma gate_table_run h config root_path steps st :
  hoare (λ _ t, Forall (table_run h config root_path) t)
    (gate h config root_path steps st)
    (λ _ _ t, Forall (table_run h config root_path) t)
    (λ _ _ t, Forall (table_run h config root_path) t).
Proof.
  assert (∀ t, Forall (λ ev, is_file_event ev = true) t →
               Forall (table_run h config root_path) t) as Hfile.
  { intros t Ht. eapply Forall_impl; [exact Ht|]. by intros []. }
  apply hoare_gate; [done|]. intros _ s t r s' t' Ht Ho.
  inversion Ho as [e sp tp Hp|e sp tp Hp Hps|sp tp ps raised files Hp Hps Hrun];
    subst.
  - apply prepare_outcome_events in Hp as [Hp _]. apply Forall_app; auto.
  - apply prepare_outcome_events in Hp as [Hp _]. apply Forall_app; auto.
  - assert (Forall (table_run h config root_path)
              (t ++ tp ++ [EvRun (mkCall (stage_uri root_path st) "main" ps) sp raised]))
      as Hall.
    { apply Forall_app. split; [done|]. apply Forall_app. split.
      - apply prepare_outcome_events in Hp as [Hp _]. auto.
      - constructor; [|constructor]. exists st, ps. split; [done|]. split; [done|].
        intros ->. inversion Hp as [Hne| |]; subst; [done|].
        split; [done|]. eexists _, _. split; [eassumption|]. split; [eassumption|].
        cbn. apply lookup_insert_eq. }
    by destruct raised.
Qed.

Lemma go_table_runs h config s :
  Forall (table_run h config (get_original_cwd h)) (go h config s).2.
Proof.
  assert (hoare (λ _ t, t = []) (go h config)
            (λ _ _ t, ∃ steps, steps_to_execute config = Ok steps ∧
               Forall (table_run h config (get_original_cwd h)) t)
            (λ _ _ t, Forall (table_run h config (get_original_cwd h)) t))
    as Hgo.
  { apply (hoare_go h config (λ _ t, t = [])
             (λ _ _ _ t, Forall (table_run h config (get_original_cwd h)) t)).
    - intros s1 t r s' t' -> Ho. cbn.
      assert (Forall (table_run h config (get_original_cwd h)) t') as Ht.
      { inversion Ho as [| e s2 t2 Hset]; subst; [by repeat constructor|].
        eapply Forall_impl; [exact Hset|]. by intros []. }
      destruct r; [destruct (steps_to_execute config)|]; done.
    - intros steps done st rest _ _. apply gate_table_run. }
  specialize (Hgo s [] eq_refl).
  destruct (go h config s) as [[[[]|e] s'] t]; cbn in *; [|done].
  by destruct Hgo as (? & _ & ?).
Qed.

Lemma go_run_from_table h config s c seen raised :
  EvRun c seen raised ∈ (go h config s).2 →
  ∃ st,
    c = mkCall (stage_uri (get_original_cwd h) st) "main" (parameters c) ∧
    stage_parameters h config st = Ok (parameters c) ∧
    (st = random_forest → config_on_disk h config seen).
Proof.
  intros Hin. pose proof (go_table_runs h config s) as Hall.
  rewrite Forall_forall in Hall. specialize (Hall _ Hin).
  destruct Hall as (st & params & -> & Hps & Hdisk). by exists st.
Qed.

(** ** C3: the selected stages, once each, in order *)

Lemma selected_of_app steps l1 l2 :
  selected_of steps (l1 ++ l2) = selected_of steps l1 ++ selected_of steps l2.
Proof. apply filter_app. Qed.

Lemma selected_of_snoc steps l st :
  selected_of steps (l ++ [st])
  = selected_of steps l ++ (if selected steps st then [st] else []).
Proof.
  rewrite selected_of_app. f_equal. unfold selected_of.
  destruct (selected steps st) eqn:Hsel.
  - rewrite filter_cons_True; [done|]. by rewrite Hsel.
  - rewrite filter_cons_False; [done|]. rewrite Hsel. exact id.
Qed.

Lemma selected_of_prefix steps root_path done rest :
  stage_uri root_path <$> selected_of steps done
  `prefix_of` stage_uri root_path <$> selected_of steps (done ++ rest).
Proof. rewrite selected_of_app, fmap_app. by apply prefix_app_r. Qed.

Lemma gate_in_order h config root_path steps done st rest :
  all_stages = done ++ st :: rest →
  hoare (λ _ t, invoked t = stage_uri root_path <$> selected_of steps done)
    (gate h config root_path steps st)
    (λ _ _ t, invoked t = stage_uri root_path <$> selected_of steps (done ++ [st]))
    (λ _ _ t, invoked t
              `prefix_of` stage_uri root_path <$> selected_of steps all_stages).
Proof.
  intros Hall. apply hoare_gate.
  - intros Hsel s t Ht. by rewrite selected_of_snoc, Hsel, app_nil_r.
  - intros Hsel s t r s' t' Ht Ho.
    assert (∀ tp, Forall (λ ev, is_file_event ev = true) tp →
                  invoked (t ++ tp) = stage_uri root_path <$> selected_of steps done)
      as Hsame.
    { intros tp Htp. rewrite invoked_app. unfold invoked at 2.
      by rewrite (file_events_no_calls tp Htp), app_nil_r. }
    assert (∀ tp c seen raised,
              Forall (λ ev, is_file_event ev = true) tp →
              uri c = stage_uri root_path st →
              invoked (t ++ tp ++ [EvRun c seen raised])
              = stage_uri root_path <$> selected_of steps (done ++ [st]))
      as Hmore.
    { intros tp c seen raised Htp Hc. rewrite app_assoc, invoked_app, (Hsame tp Htp).
      rewrite selected_of_snoc, Hsel, fmap_app. cbn. by rewrite Hc. }
    inversion Ho as [e sp tp Hp|e sp tp Hp Hps|sp tp ps raised files Hp Hps Hrun];
      subst; apply prepare_outcome_events in Hp as [Hp _].
    + rewrite (Hsame t' Hp), Hall. apply selected_of_prefix.
    + rewrite (Hsame t' Hp), Hall. apply selected_of_prefix.
    + destruct raised as [e|]; cbn [outcome];
        rewrite (Hmore tp (mkCall (stage_uri root_path st) "main" ps) _ _ Hp eq_refl).
      * rewrite Hall. rewrite (cons_middle st done rest), app_assoc.
        apply selected_of_prefix.
      * done.
Qed.

Lemma go_in_order h config steps :
  steps_to_execute config = Ok steps →
  hoare (λ _ t, t = []) (go h config)
    (λ _ _ t, invoked t
              = stage_uri (get_original_cwd h) <$> selected_of steps all_stages)
    (λ _ _ t, invoked t
              `prefix_of` stage_uri (get_original_cwd h)
                          <$> selected_of steps all_stages).
Proof.
  intros Hsteps. eapply hoare_conseq.
  - apply (hoare_go h config (λ _ t, t = [])
             (λ steps' done _ t,
                invoked t
                = stage_uri (get_original_cwd h) <$> selected_of steps' done)
             (λ _ _ t, invoked t
                       `prefix_of` stage_uri (get_original_cwd h)
                                   <$> selected_of steps all_stages)).
    + intros s t r s' t' -> Ho. cbn [app]. rewrite Hsteps.
      assert (invoked t' = []) as ->.
      { unfold invoked. rewrite setenv_events_no_calls; [done|].
        inversion Ho; subst; [by repeat constructor|done]. }
      destruct r; [done|apply prefix_nil..].
    + intros steps' done st rest Hsteps' Hall.
      assert (steps' = steps) as -> by congruence.
      by apply gate_in_order with (rest := rest).
  - done.
  - intros [] s t (steps' & Hsteps' & Ht). congruence.
  - done.
Qed.

Lemma stage_uris_NoDup root_path steps :
  NoDup (stage_uri root_path <$> selected_of steps all_stages).
Proof.
  apply NoDup_fmap_2; [intros st1 st2; apply stage_uri_inj|].
  apply NoDup_filter. by apply (bool_decide_unpack _).
Qed.

(** C3.  The projects that [go] runs are, in this order, those of the
    selected stages taken in canonical order (download, preprocess,
    check_data, segregate, random_forest, evaluate): always a prefix of
    that list, without repetition, and the whole list when [go] returns. *)
Theorem go_invokes_selected_in_order h config s steps :
  steps_to_execute config = Ok steps →
  invoked (go h config s).2
  `prefix_of` stage_uri (get_original_cwd h) <$> selected_of steps all_stages
  ∧ NoDup (invoked (go h config s).2)
  ∧ ((go h config s).1.1 = Ok () →
     invoked (go h config s).2
     = stage_uri (get_original_cwd h) <$> selected_of steps all_stages).
Proof.
  intros Hsteps. pose proof (go_in_order h config steps Hsteps s [] eq_refl) as Hgo.
  pose proof (stage_uris_NoDup (get_original_cwd h) steps) as Hnd.
  destruct (go h config s) as [[[[]|e] s'] t]; cbn in *.
  - rewrite Hgo. done.
  - split; [done|]. split; [|done].
    destruct Hgo as [k Hk]. rewrite Hk in Hnd. by apply NoDup_app in Hnd as [? _].
Qed.

(** A witness: with the steps ["segregate,random_forest"] exactly those
    two stages run, [segregate] first; [download], [preprocess],
    [check_data] and [evaluate] do not. *)
Lemma go_invokes_selected_in_order_witness :
  invoked
    (go Sample.quiet (Sample.config (VStr "segregate,random_forest"))
       Sample.boot).2
  = ["/repo/segregate"; "/repo/random_forest"].
Proof.
  exact (proj2 (proj2 (go_invokes_selected_in_order Sample.quiet
                         (Sample.config (VStr "segregate,random_forest"))
                         Sample.boot
                         [VStr "segregate"; VStr "random_forest"] eq_refl))
               eq_refl).
Defined.

(** ** C9: the environment is set before any run *)

Lemma gate_environment_ready h config root_path steps st s0 :
  hoare (environment_ready config s0) (gate h config root_path steps st)
    (λ _, environment_ready config s0)
    (λ _, environment_ready config s0).
Proof.
  apply hoare_gate; [done|]. intros _ s t r s' t' Hready Ho.
  destruct Hready as (project & experiment & rest & Hp1 & Hp2 & -> & Henv & Hrest).
  assert (∀ tp, Forall (λ ev, is_file_event ev = true) tp →
            Forall (λ ev, is_setenv ev = false ∧
                      match ev with
                      | EvRun _ seen _ =>
                          environ seen = environ_after s0 project experiment
                      | _ => True
                      end) tp) as Hfile.
  { intros tp Htp. eapply Forall_impl; [exact Htp|]. by intros []. }
  assert (environment_ready config s0 s'
            ((EvSetEnv "WANDB_PROJECT" project
              :: EvSetEnv "WANDB_RUN_GROUP" experiment :: rest) ++ t')) as Hgoal.
  2:{ destruct r; exact Hgoal. }
  exists project, experiment, (rest ++ t'). do 2 (split; [done|]).
  split; [done|].
  inversion Ho as [e sp tp Hp|e sp tp Hp Hps|sp tp ps raised files Hp Hps Hrun];
    subst; apply prepare_outcome_events in Hp as [Hp Hsame].
  - split; [congruence|]. apply Forall_app; auto.
  - split; [congruence|]. apply Forall_app; auto.
  - split; [cbn; congruence|]. apply Forall_app. split; [done|].
    apply Forall_app. split; [auto|].
    constructor; [|constructor]. split; [done|]. congruence.
Qed.

Lemma go_environment_ready h config s0 :
  hoare (λ s t, s = s0 ∧ t = []) (go h config)
    (λ _, environment_ready config s0)
    (λ _ s t, calls t = [] ∨ environment_ready config s0 s t).
Proof.
  eapply hoare_conseq.
  - apply (hoare_go h config (λ s t, s = s0 ∧ t = [])
             (λ _ _, environment_ready config s0)
             (λ _ s t, calls t = [] ∨ environment_ready config s0 s t)).
    + intros s t r s' t' [-> ->] Ho. cbn [app].
      inversion Ho as [project experiment Hp1 Hp2|e s1 t1 Hset]; subst.
      * assert (environment_ready config s0
                  (mkSys (environ_after s0 project experiment) (disk s0) (handle s0))
                  [EvSetEnv "WANDB_PROJECT" project;
                   EvSetEnv "WANDB_RUN_GROUP" experiment]) as Hready.
        { by exists project, experiment, []. }
        destruct (steps_to_execute config); [done|by right].
      * left. by apply setenv_events_no_calls.
    + intros steps done st rest _ _.
      eapply hoare_conseq; [apply gate_environment_ready|done|done|].
      intros e s t Hready. by right.
  - done.
  - by intros [] s t (steps & _ & Hready).
  - done.
Qed.

(** C9.  Whatever run [go] starts, before it the driver has set exactly
    two environment variables, first [WANDB_PROJECT] to
    [config.main.project_name] and then [WANDB_RUN_GROUP] to
    [config.main.experiment_name]; it sets none afterwards, and the run
    sees both. *)
Theorem environment_set_before_runs h config s pre c seen raised post :
  (go h config s).2 = pre ++ EvRun c seen raised :: post →
  ∃ project experiment rest,
    getitem2 config "main" "project_name" = Ok (VStr project) ∧
    getitem2 config "main" "experiment_name" = Ok (VStr experiment) ∧
    pre = EvSetEnv "WANDB_PROJECT" project
          :: EvSetEnv "WANDB_RUN_GROUP" experiment :: rest ∧
    Forall (λ ev, is_setenv ev = false) rest ∧
    Forall (λ ev, is_setenv ev = false) post ∧
    environ seen
    = <["WANDB_RUN_GROUP" := experiment]>
        (<["WANDB_PROJECT" := project]> (environ s)).
Proof.
  intros Ht.
  pose proof (go_environment_ready h config s s [] (conj eq_refl eq_refl)) as Hgo.
  destruct (go h config s) as [[r s'] t]. cbn in Ht, Hgo.
  assert (calls t = [] ∨ environment_ready config s s' t) as [Hnone|Hready].
  { destruct r; auto. }
  { rewrite Ht, calls_app in Hnone. by destruct (calls pre). }
  destruct Hready as (project & experiment & rest & Hp1 & Hp2 & Ht' & _ & Hrest).
  rewrite Ht' in Ht. destruct pre as [|ev1 [|ev2 pre]]; try done.
  injection Ht as <- <- ->.
  apply Forall_app in Hrest as [Hpre Hpost].
  apply Forall_cons in Hpost as [[_ Hseen] Hpost].
  exists project, experiment, pre. do 3 (split; [done|]).
  split; [|split; [|done]]; (eapply Forall_impl; [eassumption|]); by intros ? [? _].
Qed.

(** A witness: the first run of a full pass. *)
Lemma environment_set_before_runs_witness :
  ∃ seen,
    environ seen !! "WANDB_PROJECT" = Some "genre_classification" ∧
    environ seen !! "WANDB_RUN_GROUP" = Some "dev".
Proof.
  destruct (environment_set_before_runs Sample.quiet
              (Sample.config Sample.six_names) Sample.boot
              [_; _] _ _ _ _ eq_refl)
    as (project & experiment & rest & Hp1 & Hp2 & _ & _ & _ & Hseen).
  vm_compute in Hp1. injection Hp1 as <-.
  vm_compute in Hp2. injection Hp2 as <-.
  eexists. rewrite Hseen. split; reflexivity.
Defined.

(** ** C7: the training configuration is written before the run *)

Lemma split_at_event (t tp pre post : list Event) ev :
  t ++ tp = pre ++ ev :: post →
  (∃ k, t = pre ++ ev :: k) ∨ (∃ k, pre = t ++ k ∧ tp = k ++ ev :: post).
Proof.
  intros [(k & -> & Hk)|(k & -> & ->)]%app_eq_inv; [|by eauto].
  destruct k as [|ev' k]; cbn in Hk.
  - right. exists []. by rewrite !app_nil_r.
  - injection Hk as <- ->. by eauto.
Qed.

Lemma run_after_file_events tp ev k c seen raised post :
  Forall (λ ev, is_file_event ev = true) tp →
  tp ++ [ev] = k ++ EvRun c seen raised :: post →
  k = tp ∧ ev = EvRun c seen raised ∧ post = [].
Proof.
  intros Hfile Heq. destruct post as [|ev' post _] using rev_ind.
  - by apply app_inj_tail in Heq as [-> ->].
  - exfalso. rewrite app_comm_cons, app_assoc in Heq.
    apply app_inj_tail in Heq as [-> _].
    rewrite Forall_app, Forall_cons in Hfile. by destruct Hfile as [_ [? _]].
Qed.

Lemma no_run_among_file_events tp k c seen raised post :
  Forall (λ ev, is_file_event ev = true) tp →
  tp ≠ k ++ EvRun c seen raised :: post.
Proof.
  intros Hfile ->. rewrite Forall_app, Forall_cons in Hfile.
  by destruct Hfile as [_ [? _]].
Qed.

Lemma written_before_file_events h config root_path t tp :
  written_before h config root_path t →
  Forall (λ ev, is_file_event ev = true) tp →
  written_before h config root_path (t ++ tp).
Proof.
  intros Ht Hfile pre c seen raised post Heq Huri.
  apply split_at_event in Heq as [(k & ->)|(k & -> & Hk)].
  - by eapply Ht.
  - by eapply no_run_among_file_events in Hfile.
Qed.

Lemma random_forest_model_config h config params :
  stage_parameters h config random_forest = Ok params →
  assoc "model_config" params = Some (VStr (model_config_path h)).
Proof.
  cbn. unfold mbind, Result_bind. intros Hps.
  repeat match type of Hps with
         | context [getitem2 ?a ?b ?d] => destruct (getitem2 a b d); [|done]
         end.
  by injection Hps as <-.
Qed.

Lemma gate_written_before h config root_path steps st :
  hoare (λ _ t, written_before h config root_path t)
    (gate h config root_path steps st)
    (λ _ _ t, written_before h config root_path t)
    (λ _ _ t, written_before h config root_path t).
Proof.
  apply hoare_gate; [done|]. intros _ s t r s' t' Ht Ho.
  assert (written_before h config root_path (t ++ t')) as Hgoal.
  2:{ by destruct r. }
  inversion Ho as [e sp tp Hp|e sp tp Hp Hps|sp tp ps raised files Hp Hps Hrun];
    subst.
  - apply prepare_outcome_events in Hp as [Hp _].
    by apply written_before_file_events.
  - apply prepare_outcome_events in Hp as [Hp _].
    by apply written_before_file_events.
  - intros pre c seen raised' post Heq Huri.
    apply split_at_event in Heq as [(k & ->)|(k & -> & Hk)]; [by eapply Ht|].
    destruct (prepare_outcome_events _ _ _ _ _ _ _ Hp) as [Hfile _].
    apply (run_after_file_events _ _ _ _ _ _ _ Hfile) in Hk as (-> & [= <- <- <-] & ->).
    cbn [uri] in Huri. apply stage_uri_inj in Huri as ->.
    split; [by apply (random_forest_model_config h config)|].
    inversion Hp as [Hne|section text _ Hsec Hyaml|]; subst; [done|].
    split; [done|]. exists section, text, t. do 2 (split; [done|]).
    split; [apply lookup_insert_eq|done].
Qed.

Lemma go_written_before h config s :
  written_before h config (get_original_cwd h) (go h config s).2.
Proof.
  assert (hoare (λ _ t, t = []) (go h config)
            (λ _ _ t, ∃ steps, steps_to_execute config = Ok steps ∧
               written_before h config (get_original_cwd h) t)
            (λ _ _ t, written_before h config (get_original_cwd h) t))
    as Hgo.
  { apply (hoare_go h config (λ _ t, t = [])
             (λ _ _ _ t, written_before h config (get_original_cwd h) t)).
    - intros s1 t r s' t' -> Ho. cbn [app].
      assert (written_before h config (get_original_cwd h) t') as Ht.
      { intros pre c seen raised post -> _.
        assert (calls (pre ++ EvRun c seen raised :: post) = []) as Hnone.
        { apply setenv_events_no_calls.
          inversion Ho; subst; [|done].
          destruct pre as [|? [|? [|? ?]]]; discriminate. }
        rewrite calls_app in Hnone. by destruct (calls pre). }
      destruct r; [destruct (steps_to_execute config)|]; done.
    - intros steps done st rest _ _. apply gate_written_before. }
  specialize (Hgo s [] eq_refl).
  destruct (go h config s) as [[[[]|e] s'] t]; cbn in *; [|done].
  by destruct Hgo as (? & _ & ?).
Qed.

Lemma last_io_failure_app t1 t2 :
  last_io_failure (t1 ++ t2)
  = match last_io_failure t2 with
    | Some e => Some e
    | None => last_io_failure t1
    end.
Proof. unfold last_io_failure. by rewrite omap_app, last_app. Qed.

Lemma invoked_file_events t tp :
  Forall (λ ev, is_file_event ev = true) tp → invoked (t ++ tp) = invoked t.
Proof.
  intros Htp. rewrite invoked_app. unfold invoked at 2.
  by rewrite (file_events_no_calls tp Htp), app_nil_r.
Qed.

Lemma invoked_run t tp c seen raised :
  Forall (λ ev, is_file_event ev = true) tp →
  invoked (t ++ tp ++ [EvRun c seen raised]) = invoked t ++ [uri c].
Proof.
  intros Htp. by rewrite app_assoc, invoked_app, (invoked_file_events t tp Htp).
Qed.

Lemma prepared_no_io_failure h config st s sp tp :
  prepare_outcome h config st s (Ok (), sp, tp) → last_io_failure tp = None.
Proof. by inversion 1. Qed.

Lemma setenv_events_no_io_failure t :
  Forall (λ ev, is_setenv ev = true) t → last_io_failure t = None.
Proof.
  intros Hset. unfold last_io_failure.
  replace (omap io_failure t) with (@nil Exn); [done|].
  induction Hset as [|ev t Hev _ IH]; [done|]. by destruct ev.
Qed.

Lemma stage_not_passed done st rest :
  all_stages = done ++ st :: rest → st ∉ done.
Proof.
  intros Hall Hin.
  assert (NoDup all_stages) as Hnd by by apply (bool_decide_unpack _).
  rewrite Hall in Hnd. apply NoDup_app in Hnd as (_ & Hnd & _).
  apply (Hnd st Hin). by left.
Qed.

Lemma gate_io_failure h config root_path steps done st rest :
  all_stages = done ++ st :: rest →
  hoare (λ _ t, last_io_failure t = None ∧
                invoked t = stage_uri root_path <$> selected_of steps done)
    (gate h config root_path steps st)
    (λ _ _ t, last_io_failure t = None ∧
              invoked t = stage_uri root_path <$> selected_of steps (done ++ [st]))
    (λ e _ t, ∀ e', last_io_failure t = Some e' →
                e' = e ∧ stage_uri root_path random_forest ∉ invoked t).
Proof.
  intros Hall. apply hoare_gate.
  - intros Hsel s t [Hnone Ht]. by rewrite selected_of_snoc, Hsel, app_nil_r.
  - intros Hsel s t r s' t' [Hnone Ht] Ho.
    inversion Ho as [e sp tp Hp|e sp tp Hp Hps|sp tp ps raised files Hp Hps Hrun];
      subst.
    + intros e' Hlast. rewrite last_io_failure_app, Hnone in Hlast.
      destruct (prepare_outcome_events _ _ _ _ _ _ _ Hp) as [Hfile _].
      inversion Hp as [| |e1 s1 t1 -> _ _ Hclass]; subst.
      destruct (last_io_failure t') as [e''|] eqn:Hlast'; [|done].
      injection Hlast as ->. split; [by apply Hclass|].
      rewrite (invoked_file_events t t' Hfile), Ht.
      intros (st' & Heq & Hin)%list_elem_of_fmap.
      apply stage_uri_inj in Heq as <-.
      apply list_elem_of_filter in Hin as [_ Hin].
      by apply (stage_not_passed done random_forest rest).
    + intros e' Hlast. rewrite last_io_failure_app, Hnone in Hlast.
      by rewrite (prepared_no_io_failure _ _ _ _ _ _ Hp) in Hlast.
    + destruct (prepare_outcome_events _ _ _ _ _ _ _ Hp) as [Hfile _].
      assert (last_io_failure
                (t ++ tp ++ [EvRun (mkCall (stage_uri root_path st) "main" ps)
                               sp raised]) = None) as Hnone'.
      { rewrite !last_io_failure_app. cbn.
        by rewrite (prepared_no_io_failure _ _ _ _ _ _ Hp). }
      destruct raised as [e|]; cbn [outcome].
      * intros e' Hlast. by rewrite Hnone' in Hlast.
      * split; [done|].
        rewrite (invoked_run t tp _ _ _ Hfile), Ht.
        by rewrite selected_of_snoc, Hsel, fmap_app.
Qed.

Lemma go_io_failure h config :
  hoare (λ _ t, t = []) (go h config)
    (λ _ _ t, last_io_failure t = None)
    (λ e _ t, ∀ e', last_io_failure t = Some e' →
                e' = e ∧ stage_uri (get_original_cwd h) random_forest ∉ invoked t).
Proof.
  eapply hoare_conseq.
  - apply (hoare_go h config (λ _ t, t = [])
             (λ steps done _ t,
                last_io_failure t = None ∧
                invoked t
                = stage_uri (get_original_cwd h) <$> selected_of steps done)
             (λ e _ t, ∀ e', last_io_failure t = Some e' →
                e' = e ∧ stage_uri (get_original_cwd h) random_forest ∉ invoked t)).
    + intros s t r s' t' -> Ho. cbn [app].
      assert (last_io_failure t' = None ∧ invoked t' = []) as [Hnone Hinv].
      { inversion Ho as [|e s1 t1 Hset]; subst; [done|]. split.
        - by apply setenv_events_no_io_failure.
        - unfold invoked. by rewrite setenv_events_no_calls. }
      destruct r; [destruct (steps_to_execute config)|]; try done;
        intros e' Hlast; by rewrite Hnone in Hlast.
    + intros steps done st rest _ Hall. by apply gate_io_failure with (rest := rest).
  - done.
  - by intros [] s t (steps & _ & Hnone & _).
  - done.
Qed.

(** C7.  A run of [random_forest] gets as [model_config] the absolute path
    of [random_forest_config.yml]; when it starts, the three events before
    it are the opening of that file, the write of the whole serialized
    section and the closing, all successful, the file object is closed and
    the text is on disk.  And when a file operation fails, [go] raises that
    failure (the last one, if closing fails after writing did) and
    [random_forest] is not run. *)
Theorem training_config_written_before_run h config s :
  (∀ pre c seen raised post,
     (go h config s).2 = pre ++ EvRun c seen raised :: post →
     uri c = stage_uri (get_original_cwd h) random_forest →
     assoc "model_config" (parameters c)
     = Some (VStr (os_path_abspath h "random_forest_config.yml")) ∧
     handle seen = None ∧
     ∃ section text before,
       getitem config "random_forest_pipeline" = Ok section ∧
       to_yaml h section = Ok text ∧
       disk seen !! os_path_abspath h "random_forest_config.yml" = Some text ∧
       pre = before
             ++ [EvOpen (os_path_abspath h "random_forest_config.yml") None;
                 EvWrite (os_path_abspath h "random_forest_config.yml") text None;
                 EvClose (os_path_abspath h "random_forest_config.yml") None]) ∧
  (∀ e,
     last_io_failure (go h config s).2 = Some e →
     (go h config s).1.1 = Err e ∧
     stage_uri (get_original_cwd h) random_forest ∉ invoked (go h config s).2).
Proof.
  split.
  - intros pre c seen raised post Ht Huri.
    exact (go_written_before h config s pre c seen raised post Ht Huri).
  - intros e Hlast. pose proof (go_io_failure h config s [] eq_refl) as Hgo.
    destruct (go h config s) as [[[[]|e'] s'] t]; cbn in *.
    + by rewrite Hgo in Hlast.
    + by destruct (Hgo e Hlast) as [-> ?].
Qed.

(** Two runs of the driver limited to [random_forest]: on a quiet host the
    file is written and closed when the run starts; on a full disk the
    write fails, [go] raises the error and nothing is run. *)
Lemma training_config_written_before_run_witness :
  (∃ c seen before,
     (go Sample.quiet (Sample.config (VStr "random_forest")) Sample.boot).2
     = (before
        ++ [EvOpen "/repo/outputs/random_forest_config.yml" None;
            EvWrite "/repo/outputs/random_forest_config.yml"
              ("criterion: gini" +:+ Sample.newline
               +:+ "export_artifact: model_export" +:+ Sample.newline) None;
            EvClose "/repo/outputs/random_forest_config.yml" None])
       ++ [EvRun c seen None] ∧
     handle seen = None) ∧
  (go Sample.disk_full (Sample.config (VStr "random_forest")) Sample.boot).1.1
  = Err (OSError 28) ∧
  invoked
    (go Sample.disk_full (Sample.config (VStr "random_forest")) Sample.boot).2
  = [].
Proof.
  split; [|split].
  - assert (∃ pre c seen,
              (go Sample.quiet (Sample.config (VStr "random_forest"))
                 Sample.boot).2 = pre ++ EvRun c seen None :: [] ∧
              uri c = "/repo/random_forest")
      as (pre & c & seen & Ht & Huri).
    { by eexists [_; _; _; _; _], _, _. }
    destruct (proj1 (training_config_written_before_run Sample.quiet
                       (Sample.config (VStr "random_forest")) Sample.boot)
                pre c seen None [] Ht Huri)
      as (_ & Hclosed & section & text & before & Hsec & Hyaml & _ & ->).
    vm_compute in Hsec. injection Hsec as <-.
    vm_compute in Hyaml. injection Hyaml as <-.
    exists c, seen, before. split; [exact Ht|exact Hclosed].
  - exact (proj1 (proj2 (training_config_written_before_run Sample.disk_full
                           (Sample.config (VStr "random_forest")) Sample.boot)
                    (OSError 28) eq_refl)).
  - vm_compute. reflexivity.
Defined.

(** ** The runs are the calls of the table, stage for stage *)

Lemma selected_of_prefix_stages steps done rest :
  selected_of steps done `prefix_of` selected_of steps (done ++ rest).
Proof. rewrite selected_of_app. by apply prefix_app_r. Qed.

Lemma calls_file_events t tp :
  Forall (λ ev, is_file_event ev = true) tp → calls (t ++ tp) = calls t.
Proof.
  intros Htp. by rewrite calls_app, (file_events_no_calls tp Htp), app_nil_r.
Qed.

Lemma calls_run t tp c seen raised :
  Forall (λ ev, is_file_event ev = true) tp →
  calls (t ++ tp ++ [EvRun c seen raised]) = calls t ++ [c].
Proof.
  intros Htp. by rewrite app_assoc, calls_app, (calls_file_events t tp Htp).
Qed.

Lemma calls_elem_of c t :
  c ∈ calls t ↔ ∃ seen raised, EvRun c seen raised ∈ t.
Proof.
  unfold calls. rewrite list_elem_of_omap. split.
  - intros ([] & Hin & Hc); try done. injection Hc as ->. by eauto.
  - intros (seen & raised & Hin). by exists (EvRun c seen raised).
Qed.

Lemma gate_calls_of_stages h config root_path steps done st rest :
  all_stages = done ++ st :: rest →
  hoare (λ _ t, calls_of_stages h config root_path t (selected_of steps done))
    (gate h config root_path steps st)
    (λ _ _ t,
       calls_of_stages h config root_path t (selected_of steps (done ++ [st])))
    (λ _ _ t, ∃ ran,
       ran `prefix_of` selected_of steps all_stages ∧
       calls_of_stages h config root_path t ran).
Proof.
  intros Hall. apply hoare_gate.
  - intros Hsel s t Ht. by rewrite selected_of_snoc, Hsel, app_nil_r.
  - intros Hsel s t r s' t' Ht Ho.
    inversion Ho as [e sp tp Hp|e sp tp Hp Hps|sp tp ps raised files Hp Hps Hrun];
      subst; apply prepare_outcome_events in Hp as [Hp _].
    + exists (selected_of steps done). split.
      * rewrite Hall. apply selected_of_prefix_stages.
      * unfold calls_of_stages. by rewrite (calls_file_events t t' Hp).
    + exists (selected_of steps done). split.
      * rewrite Hall. apply selected_of_prefix_stages.
      * unfold calls_of_stages. by rewrite (calls_file_events t t' Hp).
    + assert (calls_of_stages h config root_path
                (t ++ tp ++ [EvRun (mkCall (stage_uri root_path st) "main" ps)
                               sp raised])
                (selected_of steps (done ++ [st]))) as Hmore.
      { unfold calls_of_stages.
        rewrite (calls_run t tp _ _ _ Hp), selected_of_snoc, Hsel.
        apply Forall2_app; [done|]. constructor; [|constructor].
        unfold stage_call. by rewrite Hps. }
      destruct raised as [e|]; cbn [outcome]; [|done].
      exists (selected_of steps (done ++ [st])). split; [|done].
      rewrite Hall, (cons_middle st done rest), app_assoc.
      apply selected_of_prefix_stages.
Qed.

(** The runs of [go] are the calls of a prefix of the selected stages, and
    of all the selected stages when [go] returns. *)
Lemma go_calls_of_stages h config s steps :
  steps_to_execute config = Ok steps →
  ∃ ran,
    ran `prefix_of` selected_of steps all_stages ∧
    ((go h config s).1.1 = Ok () → ran = selected_of steps all_stages) ∧
    calls_of_stages h config (get_original_cwd h) (go h config s).2 ran.
Proof.
  intros Hsteps.
  assert (hoare (λ _ t, t = []) (go h config)
            (λ _ _ t, ∃ steps',
               steps_to_execute config = Ok steps' ∧
               calls_of_stages h config (get_original_cwd h) t
                 (selected_of steps' all_stages))
            (λ _ _ t, ∃ ran,
               ran `prefix_of` selected_of steps all_stages ∧
               calls_of_stages h config (get_original_cwd h) t ran)) as Hgo.
  { apply (hoare_go h config (λ _ t, t = [])
             (λ steps' done _ t,
                calls_of_stages h config (get_original_cwd h) t
                  (selected_of steps' done))).
    - intros s1 t r s' t' -> Ho. cbn [app]. rewrite Hsteps.
      assert (calls t' = []) as Hnone.
      { apply setenv_events_no_calls.
        inversion Ho; subst; [by repeat constructor|done]. }
      destruct r.
      + unfold calls_of_stages. rewrite Hnone. constructor.
      + exists []. split; [apply prefix_nil|].
        unfold calls_of_stages. rewrite Hnone. constructor.
    - intros steps' done st rest Hsteps' Hall.
      assert (steps' = steps) as -> by congruence.
      by apply gate_calls_of_stages with (rest := rest). }
  specialize (Hgo s [] eq_refl).
  destruct (go h config s) as [[[[]|e] s'] t]; cbn in *.
  - destruct Hgo as (steps' & Hsteps' & Hcalls).
    assert (steps' = steps) as -> by congruence.
    by exists (selected_of steps all_stages).
  - destruct Hgo as (ran & Hprefix & Hcalls). by exists ran.
Qed.

(** When [go] returns, every selected stage has been run, with the call
    of the table. *)
Lemma go_runs_selected_stage h config s steps st :
  steps_to_execute config = Ok steps →
  (go h config s).1.1 = Ok () →
  selected steps st = true →
  ∃ c seen raised,
    stage_call h config (get_original_cwd h) st = Ok c ∧
    EvRun c seen raised ∈ (go h config s).2.
Proof.
  intros Hsteps Hok Hsel.
  destruct (go_calls_of_stages h config s steps Hsteps) as (ran & _ & Hran & Hcalls).
  rewrite (Hran Hok) in Hcalls.
  assert (st ∈ selected_of steps all_stages) as Hin.
  { apply list_elem_of_filter. split; [by rewrite Hsel|].
    by destruct st; apply (bool_decide_unpack _). }
  apply list_elem_of_lookup in Hin as [i Hi].
  destruct (Forall2_lookup_r _ _ _ _ _ Hcalls Hi) as (c & Hc & Hcall).
  apply list_elem_of_lookup_2, calls_elem_of in Hc as (seen & raised & Hc).
  by exists c, seen, raised.
Qed.

(** ** C2: the parameters of the runs *)

(** C2.  Every run that [go] starts is the run of one of the six stages:
    its project is the stage's folder under the root, its entry point is
    [main], and its parameters are exactly those of the table of section 6
    ([stage_parameters]).  For [download] that is the configured
    [data.file_url] and the three artifact constants, for [check_data] the
    sample artifact, the configured reference dataset and the configured
    [ks_alpha], and nothing else.  And the runs are there: taken in order,
    they are the calls of the selected stages in canonical order, one run
    per stage with that stage's mapping, up to the stage at which [go]
    raised, and of every selected stage when [go] returns. *)
Theorem go_passes_table_parameters h config s :
  (∀ c seen raised,
     EvRun c seen raised ∈ (go h config s).2 →
     ∃ st,
       uri c = stage_uri (get_original_cwd h) st ∧
       entry_point c = "main" ∧
       stage_parameters h config st = Ok (parameters c) ∧
       (st = download →
          ∃ file_url,
            getitem2 config "data" "file_url" = Ok file_url ∧
            parameters c =
              [("file_url", file_url);
               ("artifact_name", VStr "raw_data.parquet");
               ("artifact_type", VStr "raw_data");
               ("artifact_description", VStr "Data as downloaded")]) ∧
       (st = check_data →
          ∃ reference_dataset ks_alpha,
            getitem2 config "data" "reference_dataset" = Ok reference_dataset ∧
            getitem2 config "data" "ks_alpha" = Ok ks_alpha ∧
            parameters c =
              [("sample_artifact", VStr "preprocessed_data.csv:latest");
               ("reference_artifact", reference_dataset);
               ("ks_alpha", ks_alpha)])) ∧
  (∀ steps,
     steps_to_execute config = Ok steps →
     ∃ ran,
       ran `prefix_of` selected_of steps all_stages ∧
       ((go h config s).1.1 = Ok () → ran = selected_of steps all_stages) ∧
       Forall2
         (λ c st,
            uri c = stage_uri (get_original_cwd h) st ∧
            entry_point c = "main" ∧
            stage_parameters h config st = Ok (parameters c))
         (calls (go h config s).2) ran).
Proof.
  split.
  - intros c seen raised Hin.
    destruct (go_run_from_table h config s c seen raised Hin)
      as (st & Hc & Hps & _).
    exists st. rewrite Hc at 1 2. cbn. repeat split; try done.
    + intros ->. cbn in Hps. unfold mbind, Result_bind in Hps.
      destruct (getitem2 config "data" "file_url") as [file_url|]; [|done].
      exists file_url. split; [done|]. by injection Hps.
    + intros ->. cbn in Hps. unfold mbind, Result_bind in Hps.
      destruct (getitem2 config "data" "reference_dataset") as [reference|];
        [|done].
      destruct (getitem2 config "data" "ks_alpha") as [ks|]; [|done].
      exists reference, ks. do 2 (split; [done|]). by injection Hps.
  - intros steps Hsteps.
    destruct (go_calls_of_stages h config s steps Hsteps)
      as (ran & Hprefix & Hran & Hcalls).
    exists ran. do 2 (split; [done|]).
    eapply Forall2_impl; [exact Hcalls|].
    intros c st. unfold stage_call, mbind, Result_bind.
    destruct (stage_parameters h config st) as [params|]; [|done].
    by intros [= <-].
Qed.

(** A witness: the steps ["download,check_data"] on the sample
    configuration.  [go] starts two runs, [download] with the configured
    URL and [check_data] with the configured reference and threshold. *)
Lemma go_passes_table_parameters_witness :
  calls (go Sample.quiet (Sample.config (VStr "download,check_data"))
           Sample.boot).2
  = [mkCall "/repo/download" "main"
       [("file_url", VStr "https://example.org/genres_mod.parquet");
        ("artifact_name", VStr "raw_data.parquet");
        ("artifact_type", VStr "raw_data");
        ("artifact_description", VStr "Data as downloaded")];
     mkCall "/repo/check_data" "main"
       [("sample_artifact", VStr "preprocessed_data.csv:latest");
        ("reference_artifact", VStr "genres/preprocessed_data.csv:latest");
        ("ks_alpha", VFloat 7205759403792794 (-57))]].
Proof.
  destruct (proj2 (go_passes_table_parameters Sample.quiet
                     (Sample.config (VStr "download,check_data")) Sample.boot)
              [VStr "download"; VStr "check_data"] eq_refl)
    as (ran & _ & Hran & Hcalls).
  rewrite (Hran eq_refl) in Hcalls. clear Hran.
  change (selected_of [VStr "download"; VStr "check_data"] all_stages)
    with [download; check_data] in Hcalls.
  destruct (calls _) as [|[u1 e1 p1] [|[u2 e2 p2] [|c3 l]]];
    try (exfalso; inversion Hcalls as [|? ? ? ? ? Hrest];
         try inversion Hrest as [|? ? ? ? ? Hrest'];
         try inversion Hrest'; fail).
  inversion Hcalls as [|? ? ? ? (Hu1 & He1 & Hp1) Hrest]; subst.
  inversion Hrest as [|? ? ? ? (Hu2 & He2 & Hp2) _]; subst.
  cbn in Hu1, He1, Hu2, He2. vm_compute in Hp1, Hp2.
  injection Hp1 as <-. injection Hp2 as <-. by subst.
Defined.

(** ** C10: the validation fraction is the test fraction *)

Lemma stage_call_inv h config root_path st c :
  stage_call h config root_path st = Ok c →
  uri c = stage_uri root_path st ∧
  entry_point c = "main" ∧
  stage_parameters h config st = Ok (parameters c).
Proof.
  unfold stage_call, mbind, Result_bind.
  destruct (stage_parameters h config st) as [params|]; [|done].
  by intros [= <-].
Qed.

Lemma random_forest_val_size h config params :
  stage_parameters h config random_forest = Ok params →
  ∃ test_size,
    getitem2 config "data" "test_size" = Ok test_size ∧
    assoc "val_size" params = Some test_size.
Proof.
  cbn. unfold mbind, Result_bind. intros Hps.
  repeat match type of Hps with
         | context [getitem2 ?a ?b ?d] =>
             destruct (getitem2 a b d) eqn:?; [|done]
         end.
  injection Hps as <-. by eexists.
Qed.

Lemma segregate_test_size h config params :
  stage_parameters h config segregate = Ok params →
  ∃ test_size,
    getitem2 config "data" "test_size" = Ok test_size ∧
    assoc "test_size" params = Some test_size.
Proof.
  cbn. unfold mbind, Result_bind. intros Hps.
  repeat match type of Hps with
         | context [getitem2 ?a ?b ?d] =>
             destruct (getitem2 a b d) eqn:?; [|done]
         end.
  injection Hps as <-. by eexists.
Qed.

(** [segregate] comes before [random_forest]: a pass that got as far as
    [random_forest] has been through [segregate], if it is selected. *)
Lemma segregate_before_random_forest steps ran :
  ran `prefix_of` selected_of steps all_stages →
  random_forest ∈ ran →
  selected steps segregate = true →
  segregate ∈ ran.
Proof.
  intros [k Hk] Hrf Hsel.
  change all_stages
    with ([download; preprocess; check_data] ++ segregate
          :: [random_forest; evaluate]) in Hk.
  rewrite selected_of_app in Hk. unfold selected_of at 2 in Hk.
  rewrite filter_cons_True in Hk by by rewrite Hsel.
  assert (random_forest ∉ selected_of steps [download; preprocess; check_data])
    as Hnot.
  { intros [_ Hin]%list_elem_of_filter. revert Hin.
    by apply (bool_decide_unpack _). }
  symmetry in Hk.
  apply app_eq_inv in Hk as [(k' & -> & Hk)|(k' & Hk & _)].
  - destruct k' as [|st k']; [by rewrite app_nil_r in Hrf|].
    injection Hk as <- _. apply elem_of_app. right. apply list_elem_of_here.
  - exfalso. apply Hnot. rewrite Hk. apply elem_of_app. by left.
Qed.

(** C10.  The [val_size] passed to the run of [random_forest] is the
    configured [data.test_size], the very value that the run of
    [segregate] gets as [test_size].  Both runs are there: whenever
    [random_forest] is run and [segregate] is selected, [segregate] has
    been run with that value as [test_size]; and when [go] returns with
    [random_forest] selected, [random_forest] has been run. *)
Theorem val_size_is_test_size h config s :
  (∀ c seen raised,
     EvRun c seen raised ∈ (go h config s).2 →
     (uri c = stage_uri (get_original_cwd h) random_forest →
        ∃ test_size,
          getitem2 config "data" "test_size" = Ok test_size ∧
          assoc "val_size" (parameters c) = Some test_size) ∧
     (uri c = stage_uri (get_original_cwd h) segregate →
        ∃ test_size,
          getitem2 config "data" "test_size" = Ok test_size ∧
          assoc "test_size" (parameters c) = Some test_size)) ∧
  (∀ steps c seen raised,
     steps_to_execute config = Ok steps →
     EvRun c seen raised ∈ (go h config s).2 →
     uri c = stage_uri (get_original_cwd h) random_forest →
     selected steps segregate = true →
     ∃ test_size c' seen' raised',
       getitem2 config "data" "test_size" = Ok test_size ∧
       assoc "val_size" (parameters c) = Some test_size ∧
       EvRun c' seen' raised' ∈ (go h config s).2 ∧
       uri c' = stage_uri (get_original_cwd h) segregate ∧
       assoc "test_size" (parameters c') = Some test_size) ∧
  (∀ steps,
     steps_to_execute config = Ok steps →
     (go h config s).1.1 = Ok () →
     selected steps random_forest = true →
     ∃ c seen raised,
       EvRun c seen raised ∈ (go h config s).2 ∧
       uri c = stage_uri (get_original_cwd h) random_forest).
Proof.
  split; [|split].
  - intros c seen raised Hin.
    destruct (go_run_from_table h config s c seen raised Hin)
      as (st & Hc & Hps & _).
    rewrite Hc. cbn [uri]. clear Hc.
    split; intros ->%stage_uri_inj.
    + by apply (random_forest_val_size h).
    + by apply (segregate_test_size h).
  - intros steps c seen raised Hsteps Hin Huri Hsel.
    destruct (go_calls_of_stages h config s steps Hsteps)
      as (ran & Hprefix & _ & Hcalls).
    assert (c ∈ calls (go h config s).2) as Hc by (apply calls_elem_of; eauto).
    apply list_elem_of_lookup in Hc as [i Hi].
    destruct (Forall2_lookup_l _ _ _ _ _ Hcalls Hi) as (st & Hst & Hcall).
    apply stage_call_inv in Hcall as (Hu & _ & Hps).
    rewrite Hu in Huri. apply stage_uri_inj in Huri as ->.
    assert (segregate ∈ ran) as Hseg.
    { apply (segregate_before_random_forest steps); [done| |done].
      by eapply list_elem_of_lookup_2. }
    apply list_elem_of_lookup in Hseg as [j Hj].
    destruct (Forall2_lookup_r _ _ _ _ _ Hcalls Hj) as (c' & Hc' & Hcall').
    apply stage_call_inv in Hcall' as (Hu' & _ & Hps').
    apply list_elem_of_lookup_2, calls_elem_of in Hc' as (seen' & raised' & Hc').
    destruct (random_forest_val_size h config _ Hps) as (v & Hv & Hval).
    destruct (segregate_test_size h config _ Hps') as (v' & Hv' & Htest).
    assert (v' = v) as -> by congruence.
    by exists v, c', seen', raised'.
  - intros steps Hsteps Hok Hsel.
    destruct (go_runs_selected_stage h config s steps random_forest Hsteps Hok Hsel)
      as (c & seen & raised & Hcall & Hin).
    apply stage_call_inv in Hcall as (Hu & _). by exists c, seen, raised.
Qed.

(** A witness: a pass over [segregate] and [random_forest] on the sample
    configuration.  Both stages are run, and both get the configured test
    size, 0.3. *)
Lemma val_size_is_test_size_witness :
  ∃ c seen c' seen' raised',
    EvRun c seen None
      ∈ (go Sample.quiet (Sample.config (VStr "segregate,random_forest"))
           Sample.boot).2 ∧
    uri c = "/repo/random_forest" ∧
    assoc "val_size" (parameters c) = Some (VFloat 5404319552844595 (-54)) ∧
    EvRun c' seen' raised'
      ∈ (go Sample.quiet (Sample.config (VStr "segregate,random_forest"))
           Sample.boot).2 ∧
    uri c' = "/repo/segregate" ∧
    assoc "test_size" (parameters c') = Some (VFloat 5404319552844595 (-54)).
Proof.
  assert (∃ c seen,
            EvRun c seen None
              ∈ (go Sample.quiet (Sample.config (VStr "segregate,random_forest"))
                   Sample.boot).2 ∧
            uri c = "/repo/random_forest") as (c & seen & Hin & Huri).
  { eexists _, _. split.
    - do 6 apply list_elem_of_further. apply list_elem_of_here.
    - reflexivity. }
  destruct (proj1 (proj2 (val_size_is_test_size Sample.quiet
                            (Sample.config (VStr "segregate,random_forest"))
                            Sample.boot))
              [VStr "segregate"; VStr "random_forest"] c seen None
              eq_refl Hin Huri eq_refl)
    as (v & c' & seen' & raised' & Hv & Hval & Hin' & Huri' & Htest).
  vm_compute in Hv. injection Hv as <-.
  by exists c, seen, c', seen', raised'.
Defined.

(** ** What [go] reads of the configuration *)

Section Reads.
Context (h : Host) (c1 c2 : Value) (Hsame : same_but_steps c1 c2).

Lemma setup_environment_same s :
  setup_environment c1 s = setup_environment c2 s.
Proof.
  destruct Hsame as [_ Hget]. unfold setup_environment.
  rewrite !(Hget "main") by (right; discriminate). reflexivity.
Qed.

Lemma stage_parameters_same st :
  stage_parameters h c1 st = stage_parameters h c2 st.
Proof.
  destruct Hsame as [_ Hget]. destruct st; cbn;
    rewrite ?(Hget "data"), ?(Hget "random_forest_pipeline") by (left; discriminate);
    rewrite ?(Hget "main" "random_seed") by (right; discriminate);
    reflexivity.
Qed.

Lemma stage_body_same root_path st s :
  stage_body h c1 root_path st s = stage_body h c2 root_path st s.
Proof.
  unfold stage_body. rewrite stage_parameters_same.
  apply bind_ext; [|done].
  destruct st; try reflexivity. cbn [stage_prepare].
  unfold write_model_config. by rewrite (proj1 Hsame).
Qed.

Lemma run_list_same root_path steps1 steps2 l s :
  (∀ st, selected steps1 st = selected steps2 st) →
  run_list h c1 root_path steps1 l s = run_list h c2 root_path steps2 l s.
Proof.
  intros Hsel. revert s. induction l as [|st l IH]; intros s; [done|].
  cbn [run_list]. apply bind_ext; [|intros _; apply IH].
  unfold gate. rewrite Hsel. destruct (selected steps2 st); [|done].
  apply stage_body_same.
Qed.

Lemma go_same steps1 steps2 s :
  steps_to_execute c1 = Ok steps1 →
  steps_to_execute c2 = Ok steps2 →
  (∀ st, selected steps1 st = selected steps2 st) →
  go h c1 s = go h c2 s.
Proof.
  intros H1 H2 Hsel. unfold go.
  apply bind_ext; [apply setup_environment_same|]. intros _ s1.
  rewrite H1, H2, !lift_bind, !run_steps_table. by apply run_list_same.
Qed.

End Reads.

Lemma assoc_dict_set_eq {A} k (v : A) l : assoc k (dict_set k v l) = Some v.
Proof.
  induction l as [|[k' v'] l IH]; cbn.
  - by rewrite String.eqb_refl.
  - destruct (String.eqb k k') eqn:Hk; cbn; rewrite ?String.eqb_refl, ?Hk; done.
Qed.

Lemma assoc_dict_set_ne {A} k k' (v : A) l :
  k' ≠ k → assoc k' (dict_set k v l) = assoc k' l.
Proof.
  intros Hne%String.eqb_neq. induction l as [|[k'' v''] l IH]; cbn.
  - by rewrite Hne.
  - destruct (String.eqb k k'') eqn:Hk; cbn.
    + apply String.eqb_eq in Hk as <-. by rewrite Hne.
    + by rewrite IH.
Qed.

(** Setting the steps changes the steps and nothing else; a configuration
    without a [main] mapping is not changed at all. *)
Lemma with_execute_steps_cases config :
  (∀ v, with_execute_steps config v = config) ∨
  (∀ v,
     getitem2 (with_execute_steps config v) "main" "execute_steps" = Ok v ∧
     ∀ v', same_but_steps (with_execute_steps config v)
             (with_execute_steps config v')).
Proof.
  unfold with_execute_steps.
  destruct config as [| | | | | |fields]; auto.
  destruct (assoc "main" fields) as [[| | | | | |main]|] eqn:Hmain; auto.
  right. intros v. split.
  - unfold getitem2, getitem. by rewrite !assoc_dict_set_eq.
  - intros v'. split.
    + unfold getitem. by rewrite !assoc_dict_set_ne.
    + intros section key Hne. unfold getitem2, getitem.
      destruct (decide (section = "main")) as [->|Hsec].
      * rewrite !assoc_dict_set_eq. destruct Hne as [?|Hkey]; [done|].
        by rewrite !assoc_dict_set_ne.
      * by rewrite !assoc_dict_set_ne.
Qed.

(** ** C8: unknown names are inert *)

Lemma py_in_known st steps :
  py_in (stage_name st) (filter (λ v, known_step v) steps)
  = py_in (stage_name st) steps.
Proof.
  unfold py_in. induction steps as [|v steps IH]; [done|].
  destruct (known_step v) eqn:Hv.
  - rewrite filter_cons_True by by rewrite Hv. cbn [existsb]. by rewrite IH.
  - rewrite filter_cons_False by (rewrite Hv; exact id). cbn [existsb]. rewrite IH.
    assert (str_eq (stage_name st) v = false) as ->; [|done].
    unfold known_step, all_stages in Hv. cbn in Hv.
    repeat (apply orb_false_elim in Hv as [? Hv]). by destruct st.
Qed.

(** C8.  Whatever the configured steps resolve to, [go] does exactly what
    it does when the steps are that sequence with every element removed
    that is not one of the six stage names: the same runs, the same files,
    the same result.  An unknown name runs nothing and raises nothing, and
    the recognized names next to it run as they would without it. *)
Theorem unknown_names_are_inert h config v steps s :
  steps_to_execute (with_execute_steps config v) = Ok steps →
  go h (with_execute_steps config v) s
  = go h (with_execute_steps config
            (VList (filter (λ x, known_step x) steps))) s.
Proof.
  intros Hsteps.
  destruct (with_execute_steps_cases config) as [Hid|Hset].
  - by rewrite !Hid.
  - destruct (Hset v) as [_ Hsame].
    destruct (Hset (VList (filter (λ x, known_step x) steps))) as [Hget' _].
    apply (go_same h _ _ (Hsame _) steps (filter (λ x, known_step x) steps)).
    + done.
    + unfold steps_to_execute. by rewrite Hget'.
    + intros st. unfold selected. by rewrite py_in_known.
Qed.

(** A witness: an unknown name, a known one and a name with a blank in
    front, given as a string. *)
Lemma unknown_names_are_inert_witness :
  go Sample.quiet (Sample.config (VStr "bogus,download, evaluate")) Sample.boot
  = go Sample.quiet (Sample.config (VList [VStr "download"])) Sample.boot.
Proof.
  exact (unknown_names_are_inert Sample.quiet (Sample.config VNone)
           (VStr "bogus,download, evaluate")
           [VStr "bogus"; VStr "download"; VStr " evaluate"]
           Sample.boot eq_refl).
Defined.

(** ** C4: steps given as a string *)

Lemma split_comma_free name :
  comma_free name = true → split "," name = [name].
Proof.
  unfold comma_free. induction name as [|c name IH]; cbn; [done|].
  intros [Hc Hname]%andb_prop. apply negb_true_iff in Hc.
  by rewrite Hc, (IH Hname).
Qed.

Lemma split_comma_free_cons name rest :
  comma_free name = true →
  split "," (name +:+ "," +:+ rest) = name :: split "," rest.
Proof.
  unfold comma_free. induction name as [|c name IH]; cbn; [done|].
  intros [Hc Hname]%andb_prop. apply negb_true_iff in Hc.
  change (String c name +:+ "," +:+ rest)
    with (String c (name +:+ "," +:+ rest)).
  cbn [split]. by rewrite Hc, (IH Hname).
Qed.

Lemma split_join_commas names :
  names ≠ [] → Forall (λ name, comma_free name = true) names →
  split "," (join_commas names) = names.
Proof.
  intros Hne Hfree. induction Hfree as [|name names Hname Hnames IH]; [done|].
  destruct names as [|name' names].
  - by apply split_comma_free.
  - change (join_commas (name :: name' :: names))
      with (name +:+ "," +:+ join_commas (name' :: names)).
    rewrite split_comma_free_cons by done. by rewrite IH.
Qed.

(** The configured string with a blank after the comma: the second piece
    keeps its blank, so it is not the name of a stage; the selection is
    neither the trimmed one nor the one of the sequence ["download",
    "preprocess"], and [preprocess] does not run. *)
Lemma steps_string_not_trimmed :
  steps_to_execute (Sample.config (VStr "download, preprocess"))
  = Ok [VStr "download"; VStr " preprocess"] ∧
  steps_to_execute (Sample.config (VStr "download, preprocess"))
  ≠ resolve_selection (Sample.config (VStr "download, preprocess")) ∧
  steps_to_execute (Sample.config (VStr "download, preprocess"))
  ≠ steps_to_execute
      (Sample.config (VList [VStr "download"; VStr "preprocess"])) ∧
  invoked (go Sample.quiet (Sample.config (VStr "download, preprocess"))
             Sample.boot).2
  = ["/repo/download"] ∧
  invoked (go Sample.quiet
             (Sample.config (VList [VStr "download"; VStr "preprocess"]))
             Sample.boot).2
  = ["/repo/download"; "/repo/preprocess"].
Proof. repeat split; by vm_compute. Qed.

(** C4, amended.  A string of steps is split on commas and the pieces are
    taken as they are, without trimming.  So when the string is a sequence
    of names joined by commas alone (no name holding a comma, at least one
    name), the steps are that sequence, and [go] does what it does when the
    sequence is configured directly. *)
Theorem steps_string_is_sequence h config names s :
  names ≠ [] →
  Forall (λ name, comma_free name = true) names →
  steps_to_execute (with_execute_steps config (VStr (join_commas names)))
  = steps_to_execute (with_execute_steps config (VList (VStr <$> names))) ∧
  go h (with_execute_steps config (VStr (join_commas names))) s
  = go h (with_execute_steps config (VList (VStr <$> names))) s.
Proof.
  intros Hne Hfree.
  destruct (with_execute_steps_cases config) as [Hid|Hset]; [by rewrite !Hid|].
  destruct (Hset (VStr (join_commas names))) as [Hget Hsame].
  destruct (Hset (VList (VStr <$> names))) as [Hget' _].
  assert (steps_to_execute (with_execute_steps config (VStr (join_commas names)))
          = Ok (VStr <$> names)) as Hstr.
  { unfold steps_to_execute. rewrite Hget. cbn.
    by rewrite split_join_commas. }
  assert (steps_to_execute (with_execute_steps config (VList (VStr <$> names)))
          = Ok (VStr <$> names)) as Hseq.
  { unfold steps_to_execute. by rewrite Hget'. }
  split; [by rewrite Hstr, Hseq|].
  by apply (go_same h _ _ (Hsame _) (VStr <$> names) (VStr <$> names)).
Qed.

(** A witness: ["segregate,random_forest"] and the two names in
    sequence. *)
Lemma steps_string_is_sequence_witness :
  steps_to_execute (Sample.config (VStr "segregate,random_forest"))
  = steps_to_execute
      (Sample.config (VList [VStr "segregate"; VStr "random_forest"])) ∧
  go Sample.quiet (Sample.config (VStr "segregate,random_forest")) Sample.boot
  = go Sample.quiet
      (Sample.config (VList [VStr "segregate"; VStr "random_forest"]))
      Sample.boot.
Proof.
  apply (steps_string_is_sequence Sample.quiet (Sample.config VNone)
           ["segregate"; "random_forest"] Sample.boot).
  - discriminate.
  - repeat constructor.
Defined.

(** ** C5: no steps configured *)

(** The sample configuration without [execute_steps]: [go] raises the
    key error and runs nothing, where the specification selects the six
    stages. *)
Lemma go_has_no_default_steps :
  (go Sample.quiet (Sample.config_with [("random_seed", VInt 42)])
     Sample.boot).1.1
  = Err (ConfigKeyError "execute_steps") ∧
  invoked (go Sample.quiet (Sample.config_with [("random_seed", VInt 42)])
             Sample.boot).2
  = [] ∧
  resolve_selection (Sample.config_with [("random_seed", VInt 42)])
  = Ok (VStr <$> (stage_name <$> all_stages)) ∧
  steps_to_execute (Sample.config_with [("random_seed", VInt 42)])
  ≠ resolve_selection (Sample.config_with [("random_seed", VInt 42)]).
Proof. repeat split; by vm_compute. Qed.

(** C5, amended.  The driver has no default of its own.  When
    [main.execute_steps] is absent (the key is missing, or its value is
    null), [go] raises and runs no stage: its trace holds nothing but
    assignments to the environment.  When the two assignments of the setup
    succeed, the trace is those two and the error is the one raised by
    resolving the steps. *)
Theorem go_without_steps_raises h config s :
  (getitem2 config "main" "execute_steps" = Ok VNone ∨
   ∃ e, getitem2 config "main" "execute_steps" = Err e) →
  ∃ e,
    (go h config s).1.1 = Err e ∧
    Forall (λ ev, is_setenv ev = true) (go h config s).2 ∧
    invoked (go h config s).2 = [] ∧
    ((setup_environment config s).1.1 = Ok () →
     steps_to_execute config = Err e ∧
     (go h config s).2 = (setup_environment config s).2).
Proof.
  intros Habsent.
  assert (∃ e, steps_to_execute config = Err e) as [e Hsteps].
  { unfold steps_to_execute. destruct Habsent as [->|[e ->]]; by eexists. }
  unfold go. unfold mbind at 1 3 5 7, M_bind at 1 3 5 7.
  pose proof (setup_environment_outcome config s) as Ho.
  destruct (setup_environment config s) as [[r s1] t1].
  assert (Forall (λ ev, is_setenv ev = true) t1) as Hset.
  { inversion Ho; subst; [by repeat constructor|done]. }
  assert (invoked t1 = []) as Hnone.
  { unfold invoked. by rewrite setenv_events_no_calls. }
  destruct r as [[]|e1]; cbn.
  - rewrite lift_bind, Hsteps. cbn. rewrite app_nil_r. by exists e.
  - by exists e1.
Qed.

(** A witness: the sample configuration without [execute_steps]. *)
Lemma go_without_steps_raises_witness :
  (go Sample.quiet (Sample.config_with [("random_seed", VInt 42)])
     Sample.boot).1.1 = Err (ConfigKeyError "execute_steps") ∧
  (go Sample.quiet (Sample.config_with [("random_seed", VInt 42)])
     Sample.boot).2
  = [EvSetEnv "WANDB_PROJECT" "genre_classification";
     EvSetEnv "WANDB_RUN_GROUP" "dev"].
Proof.
  destruct (go_without_steps_raises Sample.quiet
              (Sample.config_with [("random_seed", VInt 42)]) Sample.boot)
    as (e & Hr & _ & _ & Hsetup).
  - right. by eexists.
  - destruct (Hsetup eq_refl) as [Hsteps Ht].
    vm_compute in Hsteps. injection Hsteps as <-.
    split; [exact Hr|]. rewrite Ht. reflexivity.
Defined.

(** ** Further properties of [go] *)

(** *** The order of the steps and their repetition do not matter *)



(** *** A selected stage whose parameters are missing *)



(** *** The model that is evaluated is the model that was exported *)






(** *** Files and the file object *)








Section PassFromSetup.
Context (h : Host) (config : Value).



End PassFromSetup.






(** *** The environment *)






(** *** A training section that cannot be serialized *)



(** *** Steps that name no stage *)


